(** * coafill: co-author extraction, normalisation and de-duplication

    A shallow embedding of [src/coafill/scholar.py] and the properties of
    its name canonicaliser, name de-duplicator, affiliation cleaner,
    co-author extractor and CSV writer.

    A Python [str] is modelled by its UTF-8 encoding, a [string] of
    bytes: splitting on the ASCII separators of the program and comparing
    are the same on the bytes as on the characters, [len] counts the
    bytes that begin a character, and [str.lower] acts on the ASCII
    letters, the only ones the texts searched for are made of.  A
    function that may raise returns a [result]: [Raise e] stands for the
    exception [e] leaving the function.  The calls to the Google Scholar
    client and to the clock are functions of an abstract world, which
    each call may change.  [print] and the progress bar [tqdm] have no
    part in what the functions return and are left out. *)

From Stdlib Require Import String Ascii ZArith List Bool Lia.
From stdpp Require Import base list gmap strings sorting.

#[global] Set Warnings "-clear-no-such-hyp".

Open Scope string_scope.
Open Scope list_scope.

(** ** Python string primitives *)

Module Str.

(** [s.startswith(p)], returning the rest of [s] after [p]. *)
Fixpoint strip_prefix (p s : string) : option string :=
  match p with
  | "" => Some s
  | String a p' =>
      match s with
      | "" => None
      | String b s' => if Ascii.eqb a b then strip_prefix p' s' else None
      end
  end.

(** The first occurrence of [sep] in [s], as [s.find(sep)] locates it:
    the text before it and the text after it. *)
Fixpoint cut (sep s : string) : option (string * string) :=
  match strip_prefix sep s with
  | Some rest => Some ("", rest)
  | None =>
      match s with
      | "" => None
      | String c s' =>
          match cut sep s' with
          | Some (a, b) => Some (String c a, b)
          | None => None
          end
      end
  end.

(** [sub in s] *)
Definition contains (sub s : string) : bool :=
  match cut sub s with Some _ => true | None => false end.

(** [s.split(sep)] for a non-empty [sep], as every call of the program
    has it: cut at each occurrence, left to right, occurrences not
    overlapping.  Every cut consumes at least one character, so
    [String.length s] rounds are enough. *)
Fixpoint split_fuel (fuel : nat) (sep s : string) : list string :=
  match fuel with
  | O => [s]
  | S n =>
      match cut sep s with
      | None => [s]
      | Some (a, b) => a :: split_fuel n sep b
      end
  end.

Definition split (sep s : string) : list string :=
  split_fuel (String.length s) sep s.

(** [sep.join(l)] *)
Definition join (sep : string) (l : list string) : string :=
  String.concat sep l.

(** A byte [10xxxxxx] continues a character; any other byte begins
    one. *)
Definition is_continuation (c : ascii) : bool :=
  let n := nat_of_ascii c in (128 <=? n)%nat && (n <=? 191)%nat.

(** [len(s)]: the number of characters. *)
Fixpoint len (s : string) : nat :=
  match s with
  | "" => 0
  | String c s' => if is_continuation c then len s' else S (len s')
  end.

Definition lower_char (c : ascii) : ascii :=
  let n := nat_of_ascii c in
  if (65 <=? n)%nat && (n <=? 90)%nat then ascii_of_nat (n + 32) else c.

(** [s.lower()] *)
Fixpoint lower (s : string) : string :=
  match s with
  | "" => ""
  | String c s' => String (lower_char c) (lower s')
  end.

End Str.

(** A token: a piece of text without a space. *)
Definition token (t : string) : Prop := Str.cut " " t = None.

(** ** Exceptions *)

(** What a call to the external Google Scholar client can raise: the
    exhaustion of a search generator; any other [Exception], of which
    only [str(e)] is observed; or an exception outside [Exception]
    ([KeyboardInterrupt], [SystemExit]), which [except Exception] does
    not catch. *)
Inductive service_exn : Type :=
  | StopIteration
  | ServiceError (msg : string)
  | Interrupt.

Inductive exn : Type :=
  | IndexError
  | ValueError
  | KeyError
  | OSError
  | Upstream (e : service_exn).

Inductive result (A : Type) : Type :=
  | Ok (a : A)
  | Raise (e : exn).
Arguments Ok {A} a.
Arguments Raise {A} e.

#[global] Instance result_bind : MBind result := fun A B k r =>
  match r with
  | Ok a => k a
  | Raise e => Raise e
  end.

(** A [for] loop that builds a list, element by element; the first
    exception ends it. *)
Fixpoint mapM {A B} (f : A -> result B) (l : list A) : result (list B) :=
  match l with
  | [] => Ok []
  | x :: l' => y ← f x; ys ← mapM f l'; Ok (y :: ys)
  end.

(** [l[i]], with Python's negative indices. *)
Definition getitem {A} (l : list A) (i : Z) : result A :=
  let j := if (i <? 0)%Z then (Z.of_nat (length l) + i)%Z else i in
  if (j <? 0)%Z then Raise IndexError
  else match l !! Z.to_nat j with
       | Some x => Ok x
       | None => Raise IndexError
       end.

(** [l[:-1]] *)
Definition but_last {A} (l : list A) : list A := removelast l.

(** ** Name canonicaliser: [_nsf_name_cleanup] *)

Definition nsf_name (coauthor : string) : result string :=
  let name_parts := Str.split " " coauthor in
  last_name ← getitem name_parts (-1);
  let reordered_name := last_name +:+ ", " +:+ Str.join " " (but_last name_parts) in
  if (2 <? length name_parts)%nat then
    rest ← getitem (Str.split ", " reordered_name) 1;
    let notlastname := Str.split " " rest in
    n0 ← getitem notlastname 0;
    if (Str.len n0 <? 2)%nat then
      n1 ← getitem notlastname 1;
      Ok (last_name +:+ ", " +:+ n1 +:+ " " +:+ n0)
    else Ok reordered_name
  else Ok reordered_name.

Definition _nsf_name_cleanup (coauthors : list string) : result (list string) :=
  mapM nsf_name coauthors.

(** ** Name de-duplicator: the loop of [_get_coauthors_from_pubs] *)

(** [l.remove(x)]: drops the first occurrence, [ValueError] when there is
    none. *)
Fixpoint list_remove (x : string) (l : list string) : result (list string) :=
  match l with
  | [] => Raise ValueError
  | y :: l' =>
      if String.eqb y x then Ok l'
      else l'' ← list_remove x l'; Ok (y :: l'')
  end.

(** The loop state: [unique_coauthors] and [seen_names]. *)
Definition dedup_state : Type := list string * gset (string * string).

(** The key of a canonical name:
    [last_name, first_name = coauthor.split(", ")] and then
    [first_name = first_name.split(" ")[0]].  The unpacking raises
    [ValueError] unless the split has exactly two parts. *)
Definition person_key (coauthor : string) : result (string * string) :=
  match Str.split ", " coauthor with
  | [last_name; first_name] =>
      first_name ← getitem (Str.split " " first_name) 0;
      Ok (last_name, first_name)
  | _ => Raise ValueError
  end.

(** One iteration of [for coauthor in all_coauthors]. *)
Definition dedup_step (st : dedup_state) (coauthor : string) : result dedup_state :=
  let '(unique_coauthors, seen_names) := st in
  key ← person_key coauthor;
  let '(last_name, first_name) := (key : string * string) in
  if negb (bool_decide ((last_name, first_name) ∈ seen_names)) then
    Ok (unique_coauthors ++ [coauthor], seen_names ∪ {[ (last_name, first_name) ]})
  else if bool_decide ((last_name, first_name) ∈ seen_names) then
    second ← getitem (Str.split ", " coauthor) 1;
    if negb (String.eqb second first_name) then
      if bool_decide (last_name +:+ ", " +:+ first_name ∈ unique_coauthors) then
        removed ← list_remove (last_name +:+ ", " +:+ first_name) unique_coauthors;
        Ok (removed ++ [coauthor], seen_names)
      else Ok st
    else Ok st
  else Ok st.

Fixpoint dedup_loop (st : dedup_state) (all_coauthors : list string) : result dedup_state :=
  match all_coauthors with
  | [] => Ok st
  | coauthor :: rest => st' ← dedup_step st coauthor; dedup_loop st' rest
  end.

Definition dedup (all_coauthors : list string) : result (list string) :=
  st ← dedup_loop ([], ∅) all_coauthors; Ok st.1.

(** The loop invariant: every kept name has a key, the key is in
    [seen_names], and no two kept names share a key. *)
Definition dedup_inv (st : dedup_state) : Prop :=
  (forall x, x ∈ st.1 -> exists k, person_key x = Ok k /\ k ∈ st.2)
  /\ NoDup (person_key <$> st.1).

(** What the loop has done with the names [processed] so far: every
    kept name is one of them, the key of each of them is in [seen_names],
    and every key of [seen_names] is the key of a kept name. *)
Definition dedup_cover (processed : list string) (st : dedup_state) : Prop :=
  (forall x, x ∈ st.1 -> x ∈ processed)
  /\ (forall c, c ∈ processed -> exists k, person_key c = Ok k /\ k ∈ st.2)
  /\ (forall k, k ∈ st.2 -> exists x, x ∈ st.1 /\ person_key x = Ok k).

(** [if my_name and my_name in all_coauthors: all_coauthors.remove(my_name)] *)
Definition remove_self (my_name : option string) (all_coauthors : list string)
  : result (list string) :=
  match my_name with
  | Some n =>
      if negb (String.eqb n "") && bool_decide (n ∈ all_coauthors)
      then list_remove n all_coauthors
      else Ok all_coauthors
  | None => Ok all_coauthors
  end.

(** ** Affiliation cleaner: [_nsf_affiliation_cleanup] *)

Definition title_markers : list string :=
  ["professor"; "student"; "scientist"; "researcher"; "lecturer"; "fellow"; "scholar"].

Definition has_title (affiliation : string) : bool :=
  existsb (fun word => Str.contains word (Str.lower affiliation)) title_markers.

(** The body of the loop, for one affiliation. *)
Definition clean_affiliation (affiliation : string) : result string :=
  if negb (String.eqb affiliation "") then
    let parts := Str.split ", " affiliation in
    if has_title affiliation then
      if Str.contains " at " (Str.lower affiliation) then
        getitem (Str.split " at " affiliation) 1
      else if Str.contains "@" (Str.lower affiliation) then
        getitem (Str.split "@ " affiliation) 1
      else if (1 <? length parts)%nat then
        if (2 <? length parts)%nat then
          Ok (Str.join ", " (drop 1 (Str.split ", " affiliation)))
        else getitem (Str.split ", " affiliation) 1
      else Ok ""
    else Ok affiliation
  else Ok affiliation.

Definition _nsf_affiliation_cleanup (affiliations : list string) : result (list string) :=
  mapM clean_affiliation affiliations.

(** ** Publications and profiles, as the Scholar client returns them *)

Inductive pyval : Type :=
  | PyInt (z : Z)
  | PyStr (s : string).

(** [paper["bib"]]: the keys the program reads. *)
Record bib_entry : Type := BibEntry {
  pub_year : option pyval;
  author : option string
}.

(** A publication: a dictionary that may hold a ["bib"] entry. *)
Record publication : Type := Publication {
  bib : option bib_entry
}.

(** An author record: a dictionary from field names to text. *)
Definition author_dict : Type := gmap string string.

Record profile : Type := Profile {
  profile_name : option string;
  profile_publications : option (list publication)
}.

(** ** The writer's store: list objects and files *)

Definition loc : Type := nat.

(** [unwritable] holds the paths the file system does not open for
    writing: a missing directory, a directory, no permission. *)
Record pystate : Type := PyState {
  heap : gmap loc (list string);
  files : gmap string string;
  unwritable : gset string
}.

(** [Path(filename).open(mode="w", encoding="utf-8")]: the exception it
    raises, if it raises.  The empty path is the current directory, which
    is no file; a path with a NUL character is refused before the file
    system is asked; for the other paths the file system decides. *)
Definition open_for_writing (st : pystate) (filename : string) : option exn :=
  if String.eqb filename "" then Some OSError
  else if Str.contains (String "000"%char "") filename then Some ValueError
  else if bool_decide (filename ∈ unwritable st) then Some OSError
  else None.

Definition quote_char : ascii := "034"%char.
Definition newline_char : ascii := "010"%char.

(** [f'"{s}"'] *)
Definition quoted (s : string) : string :=
  String quote_char (s +:+ String quote_char "").

(** [f' {name},"{affiliation}" \n'] *)
Definition csv_line (name affiliation : string) : string :=
  " " +:+ name +:+ "," +:+ quoted affiliation +:+ " " +:+ String newline_char "".

(** One iteration of the loop of [_dump_to_csv]: [co_authors] is the list
    object at [l], rewritten in place; the line goes to the open file. *)
Definition dump_step (l : loc) (affiliations : list string) (filename : string)
    (i : nat) (st : pystate) : result unit * pystate :=
  match heap st !! l with
  | None => (Raise KeyError, st)
  | Some co_authors =>
      match co_authors !! i with
      | None => (Raise IndexError, st)
      | Some name =>
          let co_authors' := <[i := quoted name]> co_authors in
          let st1 :=
            PyState (<[l := co_authors']> (heap st)) (files st) (unwritable st) in
          match affiliations !! i with
          | None => (Raise IndexError, st1)
          | Some affiliation =>
              let written := default "" (files st1 !! filename) in
              (Ok tt,
               PyState (heap st1)
                 (<[filename := written +:+ csv_line (quoted name) affiliation]> (files st1))
                 (unwritable st1))
          end
      end
  end.

Fixpoint dump_loop (l : loc) (affiliations : list string) (filename : string)
    (indices : list nat) (st : pystate) : result unit * pystate :=
  match indices with
  | [] => (Ok tt, st)
  | i :: rest =>
      match dump_step l affiliations filename i st with
      | (Ok _, st') => dump_loop l affiliations filename rest st'
      | (Raise e, st') => (Raise e, st')
      end
  end.

(** [_dump_to_csv]: the file is opened first, and when that fails
    nothing is quoted or written; opening with mode ["w"] empties the
    file; the range of the loop is fixed before the first iteration. *)
Definition _dump_to_csv (l : loc) (affiliations : list string) (filename : string)
    (st : pystate) : result unit * pystate :=
  match open_for_writing st filename with
  | Some e => (Raise e, st)
  | None =>
      match heap st !! l with
      | None => (Raise KeyError, st)
      | Some co_authors =>
          dump_loop l affiliations filename (seq 0 (length co_authors))
            (PyState (heap st) (<[filename := ""]> (files st)) (unwritable st))
      end
  end.

(** [(today.year - years_back) if years_back else None] *)
Definition cutoff_year (today : Z) (years_back : option Z) : option Z :=
  match years_back with
  | Some n => if (n =? 0)%Z then None else Some (today - n)%Z
  | None => None
  end.

(** ** The external world *)

Module Scholar.
Section Service.

(** The state of everything outside the program: the Scholar service, the
    clock.  Each call to the client may change it. *)
Variable World : Type.

(** A search generator: [next] yields an author or raises. *)
Definition generator : Type := World -> (service_exn + author_dict) * World.

(** [scholarly.search_author(name)] *)
Variable search_author : string -> World -> (service_exn + generator) * World.
(** [scholarly.fill(paper.__dict__, sections=["authors"])]; an exception
    of the argument [paper.__dict__] counts as one of the call. *)
Variable fill : publication -> World -> (service_exn + publication) * World.
(** [_get_scholar_profile(scholar_id)]: two calls to the client. *)
Variable _get_scholar_profile : string -> World -> (service_exn + profile) * World.
(** [datetime.date.today().year] *)
Variable today_year : World -> Z.
(** [int(s)] on text: [None] is [ValueError]. *)
Variable int_of_str : string -> option Z.
(** [list(set(l))]: the distinct elements of [l], in the order in which
    the set enumerates them.  Nothing is assumed of that order. *)
Variable set_order : list string -> list string.

(** Computations that read and change the world and may raise. *)
Definition M (A : Type) : Type := World -> result A * World.

Definition bindW {A B} (m : M A) (k : A -> M B) : M B := fun w =>
  match m w with
  | (Ok a, w') => k a w'
  | (Raise e, w') => (Raise e, w')
  end.

Notation "'letM' x ':=' m 'in' k" := (bindW m (fun x => k))
  (at level 10, x name, m at level 100, k at level 200, only parsing).

Definition ret {A} (a : A) : M A := fun w => (Ok a, w).
Definition lift {A} (r : result A) : M A := fun w => (r, w).
Definition call {A} (f : World -> (service_exn + A) * World) : M A := fun w =>
  match f w with
  | (inl e, w') => (Raise (Upstream e), w')
  | (inr a, w') => (Ok a, w')
  end.

Fixpoint mapMW {A B} (f : A -> M B) (l : list A) : M (list B) :=
  match l with
  | [] => ret []
  | x :: l' => letM y := f x in letM ys := mapMW f l' in ret (y :: ys)
  end.

(** *** [get_scholar_info] *)

(** The body of the [try]. *)
Definition scholar_lookup (name : string) : World -> (service_exn + string) * World :=
  fun w =>
  match search_author name w with
  | (inl e, w1) => (inl e, w1)
  | (inr search_query, w1) =>
      match search_query w1 with
      | (inl e, w2) => (inl e, w2)
      | (inr author, w2) =>
          (inr (if bool_decide (is_Some (author !! "affiliation"))
                then default "No affiliation listed" (author !! "affiliation")
                else ""), w2)
      end
  end.

(** The [try] with its two handlers: [except StopIteration] and
    [except Exception as e]; what is not an [Exception] goes through. *)
Definition get_scholar_info (name : string) : M string := fun w =>
  match scholar_lookup name w with
  | (inr affiliation, w') => (Ok affiliation, w')
  | (inl StopIteration, w') => (Ok "", w')
  | (inl (ServiceError msg), w') => (Ok ("An error occurred: " +:+ msg), w')
  | (inl Interrupt, w') => (Raise (Upstream Interrupt), w')
  end.

(** *** [_get_coauthors_from_pubs] *)

Definition py_int (v : pyval) : result Z :=
  match v with
  | PyInt z => Ok z
  | PyStr s => match int_of_str s with Some z => Ok z | None => Raise ValueError end
  end.

(** The condition of the comprehension:
    ["bib" in paper and int(paper["bib"].get("pub_year", current_year)) >= year_cutoff] *)
Definition year_ok (current_year year_cutoff : Z) (paper : publication) : result bool :=
  match bib paper with
  | None => Ok false
  | Some b =>
      y ← py_int (default (PyInt current_year) (pub_year b));
      Ok (year_cutoff <=? y)%Z
  end.

Fixpoint filterM {A} (f : A -> result bool) (l : list A) : result (list A) :=
  match l with
  | [] => Ok []
  | x :: l' =>
      keep ← f x;
      l'' ← filterM f l';
      Ok (if (keep : bool) then x :: l'' else l'')
  end.

(** [if year_cutoff:] holds for an integer other than 0. *)
Definition filter_by_year (current_year : Z) (year_cutoff : option Z)
    (papers : list publication) : result (list publication) :=
  match year_cutoff with
  | Some c => if (c =? 0)%Z then Ok papers else filterM (year_ok current_year c) papers
  | None => Ok papers
  end.

(** The authors of one publication:
    [scholarly.fill(...)["bib"]["author"].split(" and ")] *)
Definition paper_coauthors (paper : publication) : M (list string) :=
  letM paper_full := call (fill paper) in
  lift (match bib paper_full with
        | None => Raise KeyError
        | Some b =>
            match author b with
            | None => Raise KeyError
            | Some a => Ok (Str.split " and " a)
            end
        end).

(** [all_coauthors.sort()] *)
Definition sort_names (l : list string) : list string := merge_sort String.le l.

Definition _get_coauthors_from_pubs (papers : list publication)
    (year_cutoff : option Z) (my_name : option string)
  : M (list string * list string) :=
  letM current_year := (fun w => (Ok (today_year w), w)) in
  letM papers_subset := lift (filter_by_year current_year year_cutoff papers) in
  letM per_paper := mapMW paper_coauthors papers_subset in
  let all_coauthors := set_order (concat per_paper) in
  letM all_coauthors := lift (_nsf_name_cleanup all_coauthors) in
  letM unique_coauthors := lift (dedup all_coauthors) in
  letM all_coauthors := lift (remove_self my_name unique_coauthors) in
  let all_coauthors := sort_names all_coauthors in
  letM affiliations := mapMW get_scholar_info all_coauthors in
  letM affiliations := lift (_nsf_affiliation_cleanup affiliations) in
  ret (all_coauthors, affiliations).

(** What the loop over [all_coauthors] stores, lookup after lookup: the
    raw affiliation at index [i] is what [get_scholar_info] returned for
    the name at index [i], each call made in the world the one before
    left. *)
Inductive lookups : World -> list string -> list string -> World -> Prop :=
  | lookups_nil w : lookups w [] [] w
  | lookups_cons w name raw w1 names raws w2 :
      get_scholar_info name w = (Ok raw, w1) ->
      lookups w1 names raws w2 ->
      lookups w (name :: names) (raw :: raws) w2.

(** The affiliation at index [i] is the one looked up for the name at
    index [i], cleaned. *)
Definition aligned (w : World) (names affiliations : list string) (w' : World) : Prop :=
  exists raws,
    lookups w names raws w'
    /\ Forall2 (fun raw affiliation => clean_affiliation raw = Ok affiliation)
         raws affiliations.

(** A run of the extractor on [papers] from the world [w] comes to the
    loop of lookups with the sorted names [names], in the world [w1]:
    the year filter, the calls of [fill], the canonicaliser, the
    de-duplication and the removal of [my_name] have all returned. *)
Definition reaches_lookups (papers : list publication) (year_cutoff : option Z)
    (my_name : option string) (w : World) (names : list string) (w1 : World) : Prop :=
  exists papers_subset per_paper cleaned unique kept,
    filter_by_year (today_year w) year_cutoff papers = Ok papers_subset
    /\ mapMW paper_coauthors papers_subset w = (Ok per_paper, w1)
    /\ _nsf_name_cleanup (set_order (concat per_paper)) = Ok cleaned
    /\ dedup cleaned = Ok unique
    /\ remove_self my_name unique = Ok kept
    /\ names = sort_names kept.

(** A publication passes a cutoff [c] when it has a ["bib"] entry whose
    year, the current year when there is none, is at least [c]. *)
Definition retained (current_year c : Z) (paper : publication) : bool :=
  match bib paper with
  | None => false
  | Some b =>
      match py_int (default (PyInt current_year) (pub_year b)) with
      | Ok y => (c <=? y)%Z
      | Raise _ => false
      end
  end.

(** The year of every publication can be read as an integer. *)
Definition year_readable (paper : publication) : Prop :=
  forall b v, bib paper = Some b -> pub_year b = Some v -> exists y, py_int v = Ok y.

(** *** [get_coauthors] *)

(** The result is the list object [co_authors], at a location of the
    store: [_dump_to_csv] receives the same object. *)
Definition get_coauthors (scholar_id : string) (years_back : option Z)
    (filename : option string) (st : pystate) : M (loc * pystate) :=
  letM today := (fun w => (Ok (today_year w), w)) in
  let year_cutoff := cutoff_year today years_back in
  letM profile := call (_get_scholar_profile scholar_id) in
  letM lists :=
    _get_coauthors_from_pubs (default [] (profile_publications profile)) year_cutoff
      (Some (default "" (profile_name profile))) in
  let co_authors := lists.1 in
  let affiliations := lists.2 in
  let l := fresh (dom (heap st)) in
  let st :=
    PyState (<[l := co_authors]> (heap st)) (files st) (unwritable st) in
  match filename with
  | Some f =>
      if negb (String.eqb f "") then
        fun w => match _dump_to_csv l affiliations f st with
                 | (Ok _, st') => (Ok (l, st'), w)
                 | (Raise e, _) => (Raise e, w)
                 end
      else ret (l, st)
  | None => ret (l, st)
  end.

End Service.

Arguments lookups {World}.
Arguments aligned {World}.

End Scholar.
Import Scholar.

(** The line of one record as the writer produces it: a space, the name
    in double quotes, a comma, the affiliation in double quotes, a space
    and the end of the line. *)
Definition record_line (name affiliation : string) : string :=
  String " " (String quote_char (name +:+
    String quote_char (String "," (String quote_char (affiliation +:+
      String quote_char (String " " (String newline_char ""))))))).

(** The line of one record without the two spaces: the name in double
    quotes, a comma, the affiliation in double quotes and the end of the
    line. *)
Definition bare_record_line (name affiliation : string) : string :=
  String quote_char (name +:+
    String quote_char (String "," (String quote_char (affiliation +:+
      String quote_char (String newline_char ""))))).

(** The text of a file of records, line by line. *)
Fixpoint csv_text (names affiliations : list string) : string :=
  match names, affiliations with
  | name :: names', affiliation :: affiliations' =>
      record_line name affiliation +:+ csv_text names' affiliations'
  | _, _ => ""
  end.

(** ** A test double for the Scholar client

    The world is a counter of the calls made.  The search knows one
    author, finds nothing for "Doe, Jane" and fails for "Roe, Richard". *)
Module Demo.

Definition World : Type := nat.

Definition search_author (name : string) (w : World)
  : (service_exn + generator World) * World :=
  if String.eqb name "Roe, Richard" then (inl (ServiceError "timed out"), S w)
  else if String.eqb name "Doe, Jane" then (inr (fun w' => (inl StopIteration, S w')), S w)
  else (inr (fun w' => (inr {[ "affiliation" := "Professor, Example University" ]}, S w')),
        S w).

Definition fill (paper : publication) (w : World)
  : (service_exn + publication) * World := (inr paper, S w).

Definition papers : list publication :=
  [ Publication (Some (BibEntry (Some (PyInt 2025))
      (Some "John Smith and Jane Doe and John A Smith and Richard Roe")));
    Publication (Some (BibEntry None (Some "John Smith and M Ann Johnson")));
    Publication (Some (BibEntry (Some (PyStr "2018")) (Some "Old Timer"))) ].

Definition _get_scholar_profile (scholar_id : string) (w : World)
  : (service_exn + profile) * World :=
  (inr (Profile (Some "Smith, John A") (Some papers)), S w).

Definition today_year (w : World) : Z := 2026.

(** [int] on the texts of the examples: unsigned decimal numerals. *)
Fixpoint digits (acc : Z) (s : string) : option Z :=
  match s with
  | "" => Some acc
  | String c s' =>
      let n := nat_of_ascii c in
      if (48 <=? n)%nat && (n <=? 57)%nat
      then digits (10 * acc + Z.of_nat (n - 48)) s'
      else None
  end.

Definition int_of_str (s : string) : option Z :=
  match s with
  | "" => None
  | _ => digits 0 s
  end.

Definition set_order (l : list string) : list string := remove_dups l.

Definition extract :=
  _get_coauthors_from_pubs World search_author fill today_year int_of_str set_order.

Definition coauthors :=
  get_coauthors World search_author fill _get_scholar_profile today_year int_of_str set_order.

Definition empty_state : pystate := PyState ∅ ∅ ∅.

(** A file system without the directory [no_such_dir]. *)
Definition state_without_dir : pystate :=
  PyState ∅ ∅ {[ "no_such_dir/coauthors.csv" ]}.

End Demo.

(** A client whose search fails for "Doe, Jane", with a message that
    names a mail address, and is interrupted for "Roe, Richard". *)
Module DemoFailing.

Definition search_author (name : string) (w : Demo.World)
  : (service_exn + generator Demo.World) * Demo.World :=
  if String.eqb name "Doe, Jane"
  then (inl (ServiceError "blocked, write to scholar-help@example.org"), S w)
  else if String.eqb name "Roe, Richard" then (inl Interrupt, S w)
  else Demo.search_author name w.

Definition extract :=
  _get_coauthors_from_pubs Demo.World search_author Demo.fill Demo.today_year
    Demo.int_of_str Demo.set_order.

End DemoFailing.

(** A client that fills one publication and then refuses: the second
    call of [fill] fails. *)
Module DemoLimited.

Definition fill (paper : publication) (w : Demo.World)
  : (service_exn + publication) * Demo.World :=
  if (w <? 1)%nat then (inr paper, S w)
  else (inl (ServiceError "rate limited"), S w).

Definition extract :=
  _get_coauthors_from_pubs Demo.World Demo.search_author fill Demo.today_year
    Demo.int_of_str Demo.set_order.

End DemoLimited.

(** * Properties *)

(** ** Facts about the string primitives *)

Module StrFacts.
Import Str.

Lemma sapp_cons c s t : String c s +:+ t = String c (s +:+ t).
Proof. reflexivity. Qed.

Lemma sapp_nil_l s : "" +:+ s = s.
Proof. reflexivity. Qed.

Lemma sapp_nil_r s : s +:+ "" = s.
Proof. induction s as [|c s IH]; [done|]. by rewrite sapp_cons, IH. Qed.

Lemma sapp_assoc s t u : (s +:+ t) +:+ u = s +:+ t +:+ u.
Proof. induction s as [|c s IH]; [done|]. by rewrite !sapp_cons, IH. Qed.

Lemma slength_app s t : String.length (s +:+ t) = String.length s + String.length t.
Proof. induction s as [|c s IH]; [done|]. rewrite sapp_cons. simpl. by rewrite IH. Qed.

Lemma strip_prefix_app p s : strip_prefix p (p +:+ s) = Some s.
Proof.
  induction p as [|a p IH]; [done|].
  rewrite sapp_cons. simpl. by rewrite Ascii.eqb_refl.
Qed.

Lemma strip_prefix_Some p s r : strip_prefix p s = Some r -> s = p +:+ r.
Proof.
  revert s. induction p as [|a p IH]; intros s H; simpl in H.
  - by inversion H.
  - destruct s as [|b s]; [done|].
    destruct (Ascii.eqb a b) eqn:E; [|done].
    apply Ascii.eqb_eq in E as ->. rewrite sapp_cons. f_equal. by apply IH.
Qed.

(** Looking for [p] at the head of [u +:+ v] only reads [u] when [u] is
    at least as long as [p]. *)
Lemma strip_prefix_app_long p u v :
  String.length p <= String.length u ->
  strip_prefix p (u +:+ v) = (fun r => r +:+ v) <$> strip_prefix p u.
Proof.
  revert u. induction p as [|a p IH]; intros u Hlen; [done|].
  destruct u as [|b u]; simpl in Hlen; [lia|].
  rewrite sapp_cons. simpl. destruct (Ascii.eqb a b); [|done].
  apply IH. lia.
Qed.

Lemma cut_Some sep s a b : cut sep s = Some (a, b) -> s = a +:+ sep +:+ b.
Proof.
  revert a. induction s as [|c s IH]; intros a H.
  - simpl in H. destruct (strip_prefix sep "") eqn:E; [|done].
    inversion H; subst. by apply strip_prefix_Some in E.
  - simpl in H. destruct (strip_prefix sep (String c s)) eqn:E.
    + inversion H; subst. by apply strip_prefix_Some in E.
    + destruct (cut sep s) as [[a' b']|] eqn:E'; [|done].
      inversion H; subst. rewrite sapp_cons. f_equal. by apply IH.
Qed.

Lemma cut_length sep s a b :
  cut sep s = Some (a, b) ->
  String.length s = String.length a + String.length sep + String.length b.
Proof. intros ->%cut_Some. rewrite !slength_app. lia. Qed.

(** An occurrence is found whenever there is one. *)
Lemma cut_app_is_Some sep a b : is_Some (cut sep (a +:+ sep +:+ b)).
Proof.
  induction a as [|c a IH].
  - rewrite sapp_nil_l. destruct b, sep; simpl; rewrite ?Ascii.eqb_refl;
      rewrite ?strip_prefix_app; eauto.
  - rewrite sapp_cons. simpl.
    destruct (strip_prefix sep _); [eauto|].
    destruct IH as [[a' b'] ->]. eauto.
Qed.

(** Whether the first occurrence of [sep] in [a +:+ sep +:+ b] is the one
    shown does not depend on [b]. *)
Lemma cut_app_change_suffix sep a b b' :
  cut sep (a +:+ sep +:+ b) = Some (a, b) ->
  cut sep (a +:+ sep +:+ b') = Some (a, b').
Proof.
  induction a as [|c a IH]; intros H.
  - rewrite sapp_nil_l.
    assert (strip_prefix sep (sep +:+ b') = Some b') as E by apply strip_prefix_app.
    destruct (sep +:+ b'); simpl; by rewrite E.
  - rewrite sapp_cons in *. simpl in *.
    rewrite <- sapp_cons, <- sapp_assoc in *.
    rewrite strip_prefix_app_long in * by (rewrite slength_app; simpl; lia).
    destruct (strip_prefix sep (String c a +:+ sep)); simpl in *; [done|].
    rewrite sapp_assoc in *.
    destruct (cut sep (a +:+ sep +:+ b)) as [[a1 b1]|] eqn:E; [|done].
    inversion H; subst. by rewrite IH.
Qed.

Lemma split_fuel_enough sep s n m :
  sep <> "" -> String.length s <= n -> String.length s <= m ->
  split_fuel n sep s = split_fuel m sep s.
Proof.
  intros Hsep. assert (0 < String.length sep) by (destruct sep; [done|simpl; lia]).
  revert m s. induction n as [|n IH]; intros [|m] s Hn Hm; simpl; try done.
  - destruct s; [|simpl in Hn; lia]. by destruct sep.
  - destruct s; [|simpl in Hm; lia]. by destruct sep.
  - destruct (cut sep s) as [[a b]|] eqn:E; [|done].
    f_equal. apply cut_length in E. apply IH; lia.
Qed.

Lemma split_None sep s : cut sep s = None -> split sep s = [s].
Proof. unfold split. intros E. destruct (String.length s); simpl; by rewrite ?E. Qed.

Lemma split_Some sep s a b :
  sep <> "" -> cut sep s = Some (a, b) -> split sep s = a :: split sep b.
Proof.
  intros Hsep E. unfold split. pose proof (cut_length _ _ _ _ E) as Hlen.
  assert (0 < String.length sep) by (destruct sep; [done|simpl; lia]).
  destruct (String.length s) as [|m] eqn:Hm; [lia|].
  simpl. rewrite E. f_equal. apply split_fuel_enough; [done|lia..].
Qed.

Lemma contains_false sep s : contains sep s = false <-> cut sep s = None.
Proof. unfold contains. destruct (cut sep s); split; congruence. Qed.

Lemma contains_true sep s : contains sep s = true <-> is_Some (cut sep s).
Proof. unfold contains. destruct (cut sep s); split; try done; eauto. Qed.

(** *** Tokens: strings without a space *)

Lemma cut_space_cons c s :
  cut " " (String c s) =
  if Ascii.eqb " " c then Some ("", s)
  else match cut " " s with Some (a, b) => Some (String c a, b) | None => None end.
Proof. cbn [cut strip_prefix]. by destruct (Ascii.eqb " " c). Qed.

Lemma token_cons c t :
  cut " " (String c t) = None <-> Ascii.eqb " " c = false /\ cut " " t = None.
Proof.
  rewrite cut_space_cons. destruct (Ascii.eqb " " c); [split; [done|by intros [? ?]]|].
  destruct (cut " " t) as [[a b]|]; split; try done; by intros [? ?].
Qed.

Lemma cut_space_token_app t b :
  cut " " t = None -> cut " " (t +:+ " " +:+ b) = Some (t, b).
Proof.
  induction t as [|c t IH]; intros H; [done|].
  apply token_cons in H as [Hc Ht].
  rewrite sapp_cons, cut_space_cons, Hc. by rewrite IH.
Qed.

Lemma split_join_space ts :
  Forall (fun t => cut " " t = None) ts -> ts <> [] ->
  split " " (join " " ts) = ts.
Proof.
  induction 1 as [|t ts Ht Hts IH]; intros Hne; [done|].
  destruct ts as [|t2 ts].
  - simpl. by apply split_None.
  - change (join " " (t :: t2 :: ts)) with (t +:+ " " +:+ join " " (t2 :: ts)).
    rewrite (split_Some " " _ t (join " " (t2 :: ts))); [|done|by apply cut_space_token_app].
    f_equal. by apply IH.
Qed.

Lemma strip_comma_space c s :
  strip_prefix ", " (String c s) =
  if Ascii.eqb "," c then
    match s with
    | "" => None
    | String d s' => if Ascii.eqb " " d then Some s' else None
    end
  else None.
Proof. reflexivity. Qed.

(** A token holds no [", "]. *)
Lemma cut_comma_token t : cut " " t = None -> cut ", " t = None.
Proof.
  induction t as [|c t IH]; intros H; [done|].
  apply token_cons in H as [Hc Ht].
  cbn [cut]. rewrite strip_comma_space, (IH Ht).
  destruct (Ascii.eqb "," c); [|done].
  destruct t as [|d t]; [done|]. apply token_cons in Ht as [-> _]. done.
Qed.

(** After a token, the first [", "] is the one that follows it. *)
Lemma cut_comma_token_app t b :
  cut " " t = None -> cut ", " (t +:+ ", " +:+ b) = Some (t, b).
Proof.
  induction t as [|c t IH]; intros H; [done|].
  apply token_cons in H as [Hc Ht].
  rewrite sapp_cons. cbn [cut]. rewrite strip_comma_space, (IH Ht).
  destruct (Ascii.eqb "," c); [|done].
  destruct t as [|d t]; [done|]. apply token_cons in Ht as [Hd _].
  rewrite sapp_cons. by rewrite Hd.
Qed.

End StrFacts.

(** ** The name canonicaliser *)

Module NameFacts.
Import Str StrFacts.

Lemma getitem_last {A} (l : list A) (x : A) : getitem (l ++ [x]) (-1) = Ok x.
Proof.
  unfold getitem. cbn [Z.ltb Z.compare].
  rewrite length_app. cbn [length].
  replace (Z.of_nat (length l + 1) + -1)%Z with (Z.of_nat (length l)) by lia.
  destruct (Z.ltb_spec (Z.of_nat (length l)) 0); [lia|].
  rewrite Nat2Z.id. by rewrite list_lookup_middle.
Qed.

Lemma but_last_snoc {A} (l : list A) (x : A) : but_last (l ++ [x]) = l.
Proof. apply removelast_last. Qed.

(** The parts of a canonical name that the canonicaliser reads back:
    the text after the last name, split into tokens again. *)
Lemma reordered_split last_name rem :
  token last_name -> Forall token rem -> rem <> [] ->
  cut ", " (join " " rem) = None ->
  getitem (split ", " (last_name +:+ ", " +:+ join " " rem)) 1 = Ok (join " " rem)
  /\ split " " (join " " rem) = rem.
Proof.
  intros Hl Hrem Hne Hcomma. split; [|by apply split_join_space].
  rewrite (split_Some ", " _ last_name (join " " rem));
    [|done|by apply cut_comma_token_app].
  by rewrite (split_None _ _ Hcomma).
Qed.

(** Exactly two tokens: ["First Last"] becomes ["Last, First"]. *)
Lemma nsf_name_two_tokens (first_name last_name : string) :
  token first_name -> token last_name ->
  nsf_name (first_name +:+ " " +:+ last_name) = Ok (last_name +:+ ", " +:+ first_name).
Proof.
  intros Hf Hl. unfold nsf_name.
  change (first_name +:+ " " +:+ last_name) with (join " " ([first_name] ++ [last_name])).
  rewrite split_join_space by (by repeat constructor).
  by rewrite getitem_last, but_last_snoc.
Qed.

(** More than two tokens, none of those before the last followed by a
    comma and a space: a first token shorter than 2 characters changes
    place with the second and the other tokens before the last are
    dropped; a longer first token leaves the order as it is. *)
Lemma nsf_name_more_tokens (t0 t1 last_name : string) (mid : list string) :
  Forall token (t0 :: t1 :: mid ++ [last_name]) ->
  contains ", " (join " " (t0 :: t1 :: mid)) = false ->
  nsf_name (join " " (t0 :: t1 :: mid ++ [last_name])) =
  Ok (if (len t0 <? 2)%nat
      then last_name +:+ ", " +:+ t1 +:+ " " +:+ t0
      else last_name +:+ ", " +:+ join " " (t0 :: t1 :: mid)).
Proof.
  intros Htok Hcomma. apply contains_false in Hcomma.
  unfold nsf_name. rewrite split_join_space by done.
  change (t0 :: t1 :: mid ++ [last_name]) with ((t0 :: t1 :: mid) ++ [last_name]) in *.
  apply Forall_app in Htok as [Hrem Hl]. rewrite Forall_singleton in Hl.
  rewrite getitem_last, but_last_snoc. cbn [mbind result_bind].
  destruct (reordered_split last_name (t0 :: t1 :: mid)) as [E1 E2]; try done.
  replace (2 <? length ((t0 :: t1 :: mid) ++ [last_name]))%nat with true
    by (symmetry; apply Nat.ltb_lt; rewrite length_app; simpl; lia).
  rewrite E1. cbn [mbind result_bind]. rewrite E2. change (getitem (t0 :: t1 :: mid) 0) with (Ok t0).
  cbn [mbind result_bind]. by destruct (len t0 <? 2)%nat.
Qed.

End NameFacts.

(** ** The name de-duplicator *)

Module DedupFacts.
Import Str StrFacts NameFacts.

Lemma split_nonempty sep s : split sep s <> [].
Proof. unfold split. destruct (String.length s); simpl; by destruct (cut sep s) as [[? ?]|]. Qed.

Lemma split_two_inv sep s a b :
  sep <> "" -> split sep s = [a; b] -> cut sep s = Some (a, b) /\ cut sep b = None.
Proof.
  intros Hsep H. destruct (cut sep s) as [[a' b']|] eqn:E.
  - rewrite (split_Some _ _ _ _ Hsep E) in H. inversion H as [[Ha Hb]]. subst a'.
    destruct (cut sep b') as [[x y]|] eqn:E'.
    + rewrite (split_Some _ _ _ _ Hsep E') in Hb.
      pose proof (split_nonempty sep y). by destruct (split sep y).
    + rewrite (split_None _ _ E') in Hb. by inversion Hb; subst.
  - by rewrite (split_None _ _ E) in H.
Qed.

Lemma cut_space_first_token s a b : cut " " s = Some (a, b) -> token a.
Proof.
  revert a. induction s as [|c s IH]; intros a H; [done|].
  rewrite cut_space_cons in H. destruct (Ascii.eqb " " c) eqn:Hc.
  - by inversion H.
  - destruct (cut " " s) as [[a' b']|] eqn:E; [|done]. inversion H; subst.
    apply token_cons. split; [done|]. by eapply IH.
Qed.

Lemma first_token r f :
  getitem (split " " r) 0 = Ok f -> token f /\ getitem (split " " f) 0 = Ok f.
Proof.
  intros H. assert (token f) as Hf.
  { destruct (cut " " r) as [[a b]|] eqn:E.
    - rewrite (split_Some " " _ _ _ ltac:(done) E) in H. inversion H; subst.
      by eapply cut_space_first_token.
    - rewrite (split_None _ _ E) in H. by inversion H; subst. }
  split; [done|]. by rewrite (split_None _ _ Hf).
Qed.

(** The bare variant [last_name + ", " + first_name] of a name has the
    key of that name. *)
Lemma person_key_bare coauthor last_name first_name :
  person_key coauthor = Ok (last_name, first_name) ->
  person_key (last_name +:+ ", " +:+ first_name) = Ok (last_name, first_name).
Proof.
  unfold person_key. intros H.
  destruct (split ", " coauthor) as [|l [|r [|? ?]]] eqn:E; try done.
  destruct (getitem (split " " r) 0) as [f|] eqn:Ef; [|done].
  inversion H; subst l f. clear H.
  apply split_two_inv in E as [E _]; [|done].
  pose proof (cut_Some _ _ _ _ E) as ->.
  apply (cut_app_change_suffix _ _ _ first_name) in E.
  apply first_token in Ef as [Hf Ef].
  rewrite (split_Some ", " _ _ _ ltac:(done) E), (split_None _ _ (cut_comma_token _ Hf)).
  by rewrite Ef.
Qed.

Lemma person_key_empty : person_key "" = Raise ValueError.
Proof. reflexivity. Qed.

Lemma list_remove_Ok x l l' :
  list_remove x l = Ok l' -> exists l1 l2, l = l1 ++ x :: l2 /\ l' = l1 ++ l2.
Proof.
  revert l'. induction l as [|y l IH]; intros l' H; [done|].
  simpl in H. destruct (String.eqb_spec y x) as [->|Hne].
  - inversion H; subst. by exists [], l'.
  - destruct (list_remove x l) as [l''|] eqn:E; [|done]. inversion H; subst.
    destruct (IH _ eq_refl) as (l1 & l2 & -> & ->). by exists (y :: l1), l2.
Qed.

Lemma list_remove_elem x l : x ∈ l -> exists l', list_remove x l = Ok l'.
Proof.
  induction l as [|y l IH]; intros H; [by apply elem_of_nil in H|].
  simpl. destruct (String.eqb_spec y x) as [->|Hne]; [eauto|].
  apply elem_of_cons in H as [->|H]; [done|].
  destruct (IH H) as [l' ->]. eauto.
Qed.

Lemma dedup_inv_init : dedup_inv ([], ∅).
Proof. split; [by intros x ?%elem_of_nil|constructor]. Qed.

Lemma dedup_step_inv st coauthor st' :
  dedup_inv st -> dedup_step st coauthor = Ok st' -> dedup_inv st'.
Proof.
  destruct st as [unique seen]. intros [Hkeys Hnodup] H. unfold dedup_step in H.
  cbn [fst snd] in Hkeys, Hnodup.
  destruct (person_key coauthor) as [[l f]|] eqn:Ek; [|done]. cbn [mbind result_bind] in H.
  destruct (decide ((l, f) ∈ seen)) as [Hin|Hnotin].
  - rewrite !bool_decide_eq_true_2 in H by done. cbn [negb] in H.
    destruct (getitem (split ", " coauthor) 1) as [second|]; [|done].
    cbn [mbind result_bind] in H.
    destruct (negb (second =? f)%string); [|by inversion H; subst].
    destruct (bool_decide (l +:+ ", " +:+ f ∈ unique)); [|by inversion H; subst].
    destruct (list_remove (l +:+ ", " +:+ f) unique) as [removed|] eqn:Er; [|done].
    inversion H; subst st'. clear H.
    apply list_remove_Ok in Er as (l1 & l2 & -> & ->).
    rewrite fmap_app, fmap_cons, (person_key_bare _ _ _ Ek) in Hnodup.
    apply NoDup_app in Hnodup as (Hn1 & Hdisj & Hn2).
    apply NoDup_cons in Hn2 as [Hnot2 Hn2].
    split; cbn [fst snd].
    + intros x [Hx| ->%list_elem_of_singleton]%elem_of_app; [|eauto].
      apply Hkeys. cbn [fst]. set_solver.
    + rewrite !fmap_app. cbn [fmap list_fmap]. rewrite Ek.
      apply NoDup_app. split_and!.
      * apply NoDup_app. split_and!; [done| |done]. set_solver.
      * intros k Hk ->%list_elem_of_singleton.
        apply elem_of_app in Hk as [Hk|Hk]; [|done].
        apply (Hdisj _ Hk). set_solver.
      * apply NoDup_singleton.
  - rewrite bool_decide_eq_false_2 in H by done. cbn [negb] in H.
    inversion H; subst st'. clear H. split; cbn [fst snd].
    + intros x [Hx| ->%list_elem_of_singleton]%elem_of_app.
      * destruct (Hkeys x Hx) as (k & ? & ?). exists k. set_solver.
      * exists (l, f). set_solver.
    + rewrite fmap_app. cbn [fmap list_fmap]. rewrite Ek.
      apply NoDup_app. split_and!; [done| |apply NoDup_singleton].
      intros k (x & Hkx & Hx)%list_elem_of_fmap Hk%list_elem_of_singleton.
      destruct (Hkeys x Hx) as (k' & Hk' & Hseen). congruence.
Qed.

Lemma dedup_loop_inv l st st' :
  dedup_inv st -> dedup_loop st l = Ok st' -> dedup_inv st'.
Proof.
  revert st. induction l as [|c l IH]; intros st Hinv H; simpl in H.
  - by inversion H; subst.
  - destruct (dedup_step st c) as [st1|] eqn:E; [|done].
    eapply IH; [|done]. by eapply dedup_step_inv.
Qed.

(** The de-duplicated list holds every name once, and the empty string
    never. *)
Lemma dedup_NoDup l unique :
  dedup l = Ok unique -> NoDup unique /\ "" ∉ unique.
Proof.
  unfold dedup. intros H.
  destruct (dedup_loop ([], ∅) l) as [st|] eqn:E; [|done]. inversion H; subst.
  destruct (dedup_loop_inv _ _ _ dedup_inv_init E) as [Hkeys Hnodup]. split.
  - by eapply NoDup_fmap_1.
  - intros (k & Hk & _)%Hkeys. by rewrite person_key_empty in Hk.
Qed.

Lemma remove_self_not_elem name unique kept :
  NoDup unique -> "" ∉ unique ->
  remove_self (Some name) unique = Ok kept -> name ∉ kept.
Proof.
  intros Hnodup Hempty H. unfold remove_self in H.
  destruct (String.eqb_spec name "") as [->|Hname]; cbn [negb andb] in H.
  - by inversion H; subst.
  - destruct (decide (name ∈ unique)) as [Hin|Hnotin].
    + rewrite bool_decide_eq_true_2 in H by done.
      apply list_remove_Ok in H as (l1 & l2 & -> & ->).
      apply NoDup_app in Hnodup as (_ & Hdisj & [Hnot2 _]%NoDup_cons).
      intros [H1|H2]%elem_of_app; [|done]. apply (Hdisj _ H1). set_solver.
    + rewrite bool_decide_eq_false_2 in H by done. by inversion H; subst.
Qed.

End DedupFacts.

(** C1: from the two canonical names "Smith, John" and "Smith, John A",
    met in either order, the de-duplication keeps exactly
    "Smith, John A": the variant with the middle initial replaces the bare
    one, whichever comes first. *)
Theorem dedup_prefers_middle_initial (all_coauthors : list string) :
  all_coauthors ≡ₚ ["Smith, John"; "Smith, John A"] ->
  dedup all_coauthors = Ok ["Smith, John A"].
Proof.
  intros H. symmetry in H. apply Permutation_length_2_inv in H as [-> | ->].
  - vm_compute. reflexivity.
  - vm_compute. reflexivity.
Qed.

Lemma dedup_prefers_middle_initial_witness :
  dedup ["Smith, John A"; "Smith, John"] = Ok ["Smith, John A"].
Proof.
  apply (dedup_prefers_middle_initial ["Smith, John A"; "Smith, John"]).
  apply perm_swap.
Defined.

(** C2: on the raw name "J, Ann Smith" (three tokens, the first of
    length 2) the canonicaliser raises [IndexError] where the claim gives
    "Smith, J, Ann": the text it has just built is split again on [", "],
    and the comma of the first token is taken for the separator. *)
Theorem nsf_name_comma_token_raises :
  Str.split " " "J, Ann Smith" = ["J,"; "Ann"; "Smith"]
  /\ nsf_name "J, Ann Smith" = Raise IndexError
  /\ _nsf_name_cleanup ["John Smith"; "J, Ann Smith"] = Raise IndexError.
Proof. by vm_compute. Qed.

(** ** The affiliation cleaner *)

Module AffiliationFacts.
Import Str StrFacts.

Lemma lower_app s t : lower (s +:+ t) = lower s +:+ lower t.
Proof. induction s as [|c s IH]; [done|]. rewrite sapp_cons. simpl. by rewrite IH. Qed.

Lemma lower_char_at_sign c : Ascii.eqb "@" (lower_char c) = Ascii.eqb "@" c.
Proof. by destruct c as [[] [] [] [] [] [] [] []]. Qed.

Lemma contains_at_sign_cons c s :
  contains "@" (String c s) = Ascii.eqb "@" c || contains "@" s.
Proof.
  unfold contains. cbn [cut strip_prefix].
  destruct (Ascii.eqb "@" c); [done|]. by destruct (cut "@" s) as [[? ?]|].
Qed.

(** Lowering the case neither adds nor removes an [@]. *)
Lemma contains_at_sign_lower s : contains "@" (lower s) = contains "@" s.
Proof.
  induction s as [|c s IH]; [done|].
  cbn [lower]. by rewrite !contains_at_sign_cons, lower_char_at_sign, IH.
Qed.

Lemma has_title_nonempty a : has_title a = true -> (a =? "")%string = false.
Proof. by destruct a. Qed.

(** An occurrence of [" at "] in the text is one in its lower-case
    form. *)
Lemma contains_at_lower x y : contains " at " (lower (x +:+ " at " +:+ y)) = true.
Proof.
  rewrite !lower_app. change (lower " at ") with " at ".
  apply contains_true, cut_app_is_Some.
Qed.

(** Where the text holds [" at "] once, in lower case, the rule keeps
    what follows it. *)
Lemma affiliation_at_rule_single (affiliation x y : string) :
  has_title affiliation = true ->
  cut " at " affiliation = Some (x, y) -> cut " at " y = None ->
  clean_affiliation affiliation = Ok y.
Proof.
  intros Ht E Ey. unfold clean_affiliation.
  rewrite (has_title_nonempty _ Ht), Ht. cbn [negb].
  pose proof (cut_Some _ _ _ _ E) as Heq.
  rewrite Heq at 1. rewrite contains_at_lower.
  by rewrite (split_Some " at " _ _ _ ltac:(done) E), (split_None _ _ Ey).
Qed.

End AffiliationFacts.

(** C3: on "Professor at University at Buffalo" the [" at "] rule
    returns "University", the text between the first and the second
    [" at "], where the claim gives all the text after the first one,
    "University at Buffalo"; and on "Professor AT MIT", where [" at "]
    is found only after lowering the case, the rule raises
    [IndexError]. *)
Theorem affiliation_at_rule_stops_at_second_at :
  has_title "Professor at University at Buffalo" = true
  /\ Str.contains " at " (Str.lower "Professor at University at Buffalo") = true
  /\ Str.cut " at " "Professor at University at Buffalo"
     = Some ("Professor", "University at Buffalo")
  /\ clean_affiliation "Professor at University at Buffalo" = Ok "University"
  /\ clean_affiliation "Professor AT MIT" = Raise IndexError.
Proof. by vm_compute. Qed.

(** C4: the empty affiliation is returned as it is; so is an affiliation
    without a title marker; one with a title marker, without [" at "] in
    any case and without [@], is split on [", "]: more than two parts
    give the parts after the first joined by [", "], two parts give the
    second, one part gives the empty string. *)
Theorem affiliation_comma_rule_and_pass_through (affiliation : string) :
  clean_affiliation "" = Ok ""
  /\ (has_title affiliation = false -> clean_affiliation affiliation = Ok affiliation)
  /\ (has_title affiliation = true ->
      Str.contains " at " (Str.lower affiliation) = false ->
      Str.contains "@" affiliation = false ->
      let parts := Str.split ", " affiliation in
      (2 < length parts ->
       clean_affiliation affiliation = Ok (Str.join ", " (drop 1 parts)))
      /\ (forall first second, parts = [first; second] ->
          clean_affiliation affiliation = Ok second)
      /\ (length parts = 1 -> clean_affiliation affiliation = Ok "")).
Proof.
  split; [done|]. split.
  - intros Ht. unfold clean_affiliation. rewrite Ht. by destruct (negb _).
  - intros Ht Hat Hsign parts. unfold clean_affiliation.
    rewrite (AffiliationFacts.has_title_nonempty _ Ht), Ht, Hat.
    rewrite AffiliationFacts.contains_at_sign_lower, Hsign. cbn [negb].
    fold parts. split_and!.
    + intros Hlen. destruct (Nat.ltb_spec 1 (length parts)); [|lia].
      by destruct (Nat.ltb_spec 2 (length parts)); [|lia].
    + by intros first second ->.
    + intros Hlen. rewrite Hlen. done.
Qed.

Lemma affiliation_comma_rule_and_pass_through_witness :
  clean_affiliation "Example University" = Ok "Example University"
  /\ clean_affiliation "PhD student, Dept of X, Example University"
     = Ok "Dept of X, Example University"
  /\ clean_affiliation "Professor, MIT" = Ok "MIT"
  /\ clean_affiliation "Professor" = Ok "".
Proof.
  split_and!.
  - apply (affiliation_comma_rule_and_pass_through "Example University"). reflexivity.
  - apply (affiliation_comma_rule_and_pass_through
             "PhD student, Dept of X, Example University");
      [reflexivity..|vm_compute; lia].
  - by apply (affiliation_comma_rule_and_pass_through "Professor, MIT") with "Professor".
  - by apply (affiliation_comma_rule_and_pass_through "Professor").
Defined.

(** ** The year filter *)

Section YearFilter.

Variable int_of_str : string -> option Z.

Local Abbreviation py_int := (py_int int_of_str).
Local Abbreviation year_ok := (year_ok int_of_str).
Local Abbreviation retained := (retained int_of_str).
Local Abbreviation year_readable := (year_readable int_of_str).
Local Abbreviation filter_by_year := (filter_by_year int_of_str).

Lemma year_ok_retained current_year c paper :
  year_readable paper -> year_ok current_year c paper = Ok (retained current_year c paper).
Proof.
  unfold year_readable, Scholar.year_ok, Scholar.retained. intros Hread.
  destruct (bib paper) as [b|]; [|done].
  destruct (pub_year b) as [v|] eqn:Ev; [|done].
  destruct (Hread b v eq_refl Ev) as [y Hy]. cbn [default from_option id].
  by rewrite Hy.
Qed.

Lemma filterM_filter current_year c papers :
  Forall year_readable papers ->
  filterM (year_ok current_year c) papers
  = Ok (List.filter (retained current_year c) papers).
Proof.
  induction 1 as [|paper papers Hp Hps IH]; [done|].
  cbn [filterM List.filter]. rewrite (year_ok_retained _ _ _ Hp), IH.
  cbn [mbind result_bind]. by destruct (retained current_year c paper).
Qed.

(** C5 (as amended): without a cutoff ([None], or 0, which the test
    [if year_cutoff] takes for none) every publication is kept; with a
    cutoff [c] the publications kept are, in their order, those that have
    a ["bib"] entry whose year is at least [c]; a missing year counts as
    the current year, so such a publication is kept exactly when [c] is
    at most the current year. *)
Theorem year_filter_keeps_recent (current_year : Z) (year_cutoff : option Z)
    (papers : list publication) :
  (year_cutoff = None \/ year_cutoff = Some 0%Z ->
   filter_by_year current_year year_cutoff papers = Ok papers)
  /\ (forall c, year_cutoff = Some c -> c <> 0%Z -> Forall year_readable papers ->
      filter_by_year current_year year_cutoff papers
      = Ok (List.filter (retained current_year c) papers))
  /\ (forall c paper b y, bib paper = Some b -> pub_year b = Some (PyInt y) ->
      retained current_year c paper = (c <=? y)%Z)
  /\ (forall c paper b, bib paper = Some b -> pub_year b = None ->
      retained current_year c paper = (c <=? current_year)%Z).
Proof.
  split_and!.
  - by intros [-> | ->].
  - intros c -> Hc Hread. unfold Scholar.filter_by_year.
    destruct (Z.eqb_spec c 0); [done|]. by apply filterM_filter.
  - intros c paper b y Hb Hy. unfold Scholar.retained. by rewrite Hb, Hy.
  - intros c paper b Hb Hy. unfold Scholar.retained. by rewrite Hb, Hy.
Qed.

End YearFilter.

Lemma year_filter_keeps_recent_witness :
  filter_by_year Demo.int_of_str 2026 (Some 2022%Z) Demo.papers
  = Ok (take 2 Demo.papers)
  /\ filter_by_year Demo.int_of_str 2026 None Demo.papers = Ok Demo.papers.
Proof.
  destruct (year_filter_keeps_recent Demo.int_of_str 2026 (Some 2022%Z) Demo.papers)
    as (_ & Hcut & _).
  destruct (year_filter_keeps_recent Demo.int_of_str 2026 None Demo.papers)
    as (Hnone & _).
  split.
  - rewrite (Hcut 2022%Z); [reflexivity|reflexivity|lia|].
    repeat constructor; intros b v Hb Hv; vm_compute in Hb; inversion Hb; subst b;
      vm_compute in Hv; inversion Hv; subst v; by eexists.
  - apply Hnone. by left.
Defined.

(** C5, the claim as written fails: with the cutoff 2030 in the year 2026
    a publication without a year is filtered out, and with the cutoff
    2020 so is a publication without a ["bib"] entry. *)
Lemma year_filter_drops_missing_year :
  filter_by_year Demo.int_of_str 2026 (Some 2030%Z)
    [Publication (Some (BibEntry None (Some "Jane Doe and John Smith")))] = Ok []
  /\ filter_by_year Demo.int_of_str 2026 (Some 2020%Z) [Publication None] = Ok [].
Proof. by vm_compute. Qed.

(** ** The writer *)

Module WriterFacts.
Import StrFacts.

Lemma csv_line_record_line name affiliation :
  csv_line (quoted name) affiliation = record_line name affiliation.
Proof.
  unfold csv_line, quoted, record_line.
  by rewrite ?sapp_cons, ?sapp_nil_l, ?sapp_assoc, ?sapp_cons, ?sapp_nil_l.
Qed.

Lemma dump_step_aligned l f affs_pre affs_rest pre name rest affiliation st text :
  length affs_pre = length pre ->
  heap st !! l = Some ((quoted <$> pre) ++ name :: rest) ->
  files st !! f = Some text ->
  dump_step l (affs_pre ++ affiliation :: affs_rest) f (length pre) st
  = (Ok tt,
     PyState (<[l := (quoted <$> pre) ++ quoted name :: rest]> (heap st))
             (<[f := text +:+ record_line name affiliation]> (files st))
             (unwritable st)).
Proof.
  intros Hlen Hheap Hfile. unfold dump_step. rewrite Hheap.
  rewrite (list_lookup_middle _ _ name) by (by rewrite length_fmap).
  rewrite (list_lookup_middle _ _ affiliation) by done.
  cbn [heap files]. rewrite Hfile. cbn [default from_option id].
  rewrite csv_line_record_line.
  rewrite insert_app_r_alt by (by rewrite length_fmap).
  by rewrite length_fmap, Nat.sub_diag.
Qed.

Lemma dump_loop_aligned l f rest :
  forall affs_rest pre affs_pre st text,
  length affs_pre = length pre -> length affs_rest = length rest ->
  heap st !! l = Some ((quoted <$> pre) ++ rest) ->
  files st !! f = Some text ->
  exists st',
    dump_loop l (affs_pre ++ affs_rest) f (seq (length pre) (length rest)) st
    = (Ok tt, st')
    /\ heap st' !! l = Some (quoted <$> (pre ++ rest))
    /\ files st' !! f = Some (text +:+ csv_text rest affs_rest).
Proof.
  induction rest as [|name rest IH];
    intros [|affiliation affs_rest] pre affs_pre st text Hpre Hrest Hheap Hfile;
    try done.
  - exists st. cbn [length seq dump_loop csv_text].
    rewrite sapp_nil_r. by rewrite !app_nil_r in *.
  - cbn [length seq dump_loop].
    rewrite (dump_step_aligned _ _ _ _ _ name rest _ _ text) by done.
    destruct (IH affs_rest (pre ++ [name]) (affs_pre ++ [affiliation])
                (PyState (<[l := (quoted <$> pre) ++ quoted name :: rest]> (heap st))
                         (<[f := text +:+ record_line name affiliation]> (files st))
             (unwritable st))
                (text +:+ record_line name affiliation))
      as (st' & E & Hh & Hf).
    + rewrite !length_app. simpl. lia.
    + simpl in Hrest. lia.
    + cbn [heap]. rewrite lookup_insert_eq, fmap_app, <- app_assoc. done.
    + cbn [files]. by rewrite lookup_insert_eq.
    + exists st'. rewrite length_app, Nat.add_1_r, <- !app_assoc in E. cbn [app] in E.
      split_and!; [done| |].
      * by rewrite <- app_assoc in Hh.
      * cbn [csv_text]. by rewrite <- sapp_assoc.
Qed.

(** The writer leaves the file system's refusals as they are. *)
Lemma dump_step_unwritable l affs f i st r st' :
  dump_step l affs f i st = (r, st') -> unwritable st' = unwritable st.
Proof.
  unfold dump_step. destruct (heap st !! l) as [co|]; [|by intros [= <- <-]].
  destruct (co !! i) as [name|]; [|by intros [= <- <-]].
  destruct (affs !! i) as [affiliation|]; by intros [= <- <-].
Qed.

Lemma dump_loop_unwritable l affs f indices :
  forall st r st',
  dump_loop l affs f indices st = (r, st') -> unwritable st' = unwritable st.
Proof.
  induction indices as [|i indices IH]; intros st r st' H; cbn [dump_loop] in H.
  - by inversion H.
  - destruct (dump_step l affs f i st) as [[[]|e] st1] eqn:E;
      apply dump_step_unwritable in E.
    + apply IH in H. congruence.
    + inversion H; subst. done.
Qed.

Lemma dump_to_csv_unwritable l affs f st r st' :
  _dump_to_csv l affs f st = (r, st') -> unwritable st' = unwritable st.
Proof.
  unfold _dump_to_csv. destruct (open_for_writing st f); [by intros [= <- <-]|].
  destruct (heap st !! l) as [co|]; [|by intros [= <- <-]].
  by intros ->%dump_loop_unwritable.
Qed.

Lemma open_for_writing_unwritable st st' f :
  unwritable st' = unwritable st -> open_for_writing st' f = open_for_writing st f.
Proof. unfold open_for_writing. by intros ->. Qed.

(** For aligned lists and a file that opens, the writer returns, the
    file holds the lines of the records, and the list object holds the
    names in double quotes. *)
Lemma dump_to_csv_aligned l names affiliations filename st :
  open_for_writing st filename = None ->
  heap st !! l = Some names -> length names = length affiliations ->
  exists st',
    _dump_to_csv l affiliations filename st = (Ok tt, st')
    /\ heap st' !! l = Some (quoted <$> names)
    /\ files st' !! filename = Some (csv_text names affiliations).
Proof.
  intros Hopen Hheap Hlen. unfold _dump_to_csv. rewrite Hopen, Hheap.
  destruct (dump_loop_aligned l filename names affiliations [] []
              (PyState (heap st) (<[filename := ""]> (files st)) (unwritable st)) "")
    as (st' & E & Hh & Hf); try done.
  - cbn [files]. by rewrite lookup_insert_eq.
  - by exists st'.
Qed.

End WriterFacts.

(** X28: for aligned lists and a file that opens, the writer returns
    and the file holds one line for each record, in the order of the
    lists, each line being what [record_line] builds from the name and
    the affiliation. *)
Theorem dump_to_csv_writes_record_lines (l : loc) (names affiliations : list string)
    (filename : string) (st : pystate) :
  open_for_writing st filename = None ->
  heap st !! l = Some names -> length names = length affiliations ->
  (exists st',
     _dump_to_csv l affiliations filename st = (Ok tt, st')
     /\ files st' !! filename = Some (csv_text names affiliations))
  /\ length (zip_with record_line names affiliations) = length names
  /\ csv_text names affiliations
     = Str.join "" (zip_with record_line names affiliations).
Proof.
  intros Hopen Hheap Hlen. split_and!.
  - destruct (WriterFacts.dump_to_csv_aligned l names affiliations filename st)
      as (st' & E & _ & Hf); eauto.
  - rewrite length_zip_with. lia.
  - clear Hheap Hlen. revert affiliations.
    induction names as [|name names IH]; intros [|affiliation affiliations]; try done.
    cbn [csv_text zip_with]. rewrite IH. unfold Str.join. cbn [concat].
    destruct (zip_with record_line names affiliations); [|done].
    by rewrite StrFacts.sapp_nil_r.
Qed.

(** C9: for the record of "Smith, John" at "MIT" the writer writes a
    space, the quoted name, a comma, the quoted affiliation, a space and
    the end of the line, where the claim gives the line without the two
    spaces. *)
Theorem dump_to_csv_line_has_spaces :
  exists st',
    _dump_to_csv 0 ["MIT"] "coauthors.csv" (PyState {[ 0 := ["Smith, John"] ]} ∅ ∅)
    = (Ok tt, st')
    /\ files st' !! "coauthors.csv" = Some (record_line "Smith, John" "MIT")
    /\ record_line "Smith, John" "MIT"
       = " " +:+ String "034"%char "Smith, John" +:+ String "034"%char ","
         +:+ String "034"%char "MIT" +:+ String "034"%char " "
         +:+ String "010"%char ""
    /\ bare_record_line "Smith, John" "MIT"
       = String "034"%char "Smith, John" +:+ String "034"%char ","
         +:+ String "034"%char "MIT" +:+ String "034"%char ""
         +:+ String "010"%char ""
    /\ record_line "Smith, John" "MIT" <> bare_record_line "Smith, John" "MIT".
Proof. eexists. split_and!; by vm_compute. Qed.

Lemma dump_to_csv_writes_record_lines_witness :
  exists st',
    _dump_to_csv 0 ["MIT"; ""] "coauthors.csv"
      (PyState {[ 0 := ["Smith, John"; "Doe, Jane"] ]} ∅ ∅) = (Ok tt, st')
    /\ files st' !! "coauthors.csv"
       = Some (csv_text ["Smith, John"; "Doe, Jane"] ["MIT"; ""]).
Proof.
  apply (dump_to_csv_writes_record_lines 0 ["Smith, John"; "Doe, Jane"] ["MIT"; ""]
           "coauthors.csv" (PyState {[ 0 := ["Smith, John"; "Doe, Jane"] ]} ∅ ∅));
    vm_compute; reflexivity.
Defined.

(** ** The lookups and the extractor *)

Section ServiceFacts.

Variable World : Type.
Variable search_author : string -> World -> (service_exn + generator World) * World.
Variable fill : publication -> World -> (service_exn + publication) * World.
Variable _get_scholar_profile : string -> World -> (service_exn + profile) * World.
Variable today_year : World -> Z.
Variable int_of_str : string -> option Z.
Variable set_order : list string -> list string.

Local Abbreviation scholar_lookup := (scholar_lookup World search_author).
Local Abbreviation get_scholar_info := (get_scholar_info World search_author).
Local Abbreviation lookups := (lookups search_author).
Local Abbreviation aligned := (aligned search_author).
Local Abbreviation extractor :=
  (_get_coauthors_from_pubs World search_author fill today_year int_of_str set_order).
Local Abbreviation get_coauthors :=
  (get_coauthors World search_author fill _get_scholar_profile today_year int_of_str set_order).

Lemma bindW_Ok {A B} (m : M World A) (k : A -> M World B) w b w' :
  bindW World m k w = (Ok b, w') ->
  exists a w1, m w = (Ok a, w1) /\ k a w1 = (Ok b, w').
Proof.
  unfold bindW. destruct (m w) as [[a|e] w1]; [eauto|done].
Qed.

Lemma lift_Ok {A} (r : result A) w a w' :
  lift World r w = (Ok a, w') -> r = Ok a /\ w' = w.
Proof. unfold lift. by intros [= -> ->]. Qed.

(** A lookup raises only when it is interrupted. *)
Lemma get_scholar_info_cases name w :
  (exists affiliation w', get_scholar_info name w = (Ok affiliation, w'))
  \/ (exists w', get_scholar_info name w = (Raise (Upstream Interrupt), w')
                 /\ scholar_lookup name w = (inl Interrupt, w')).
Proof.
  unfold Scholar.get_scholar_info.
  destruct (scholar_lookup name w) as [[[|msg|]|affiliation] w']; eauto.
Qed.

Lemma lookups_cases names w :
  (exists raws w', mapMW World get_scholar_info names w = (Ok raws, w')
                   /\ lookups w names raws w')
  \/ (exists w', mapMW World get_scholar_info names w
                 = (Raise (Upstream Interrupt), w')).
Proof.
  revert w. induction names as [|name names IH]; intros w.
  - left. exists [], w. split; [done|constructor].
  - cbn [mapMW]. unfold bindW.
    destruct (get_scholar_info_cases name w) as [(raw & w1 & E)|(w1 & E & _)];
      rewrite E; [|by right; exists w1].
    destruct (IH w1) as [(raws & w2 & E' & Hl)|(w2 & E')]; rewrite E'.
    + left. exists (raw :: raws), w2. split; [done|by econstructor].
    + right. by exists w2.
Qed.

Lemma mapMW_lookups names w raws w' :
  mapMW World get_scholar_info names w = (Ok raws, w') -> lookups w names raws w'.
Proof.
  intros H. destruct (lookups_cases names w) as [(raws' & w'' & E & Hl)|(w'' & E)];
    rewrite E in H; [|done].
  by inversion H; subst.
Qed.

Lemma lookups_length w names raws w' :
  lookups w names raws w' -> length names = length raws.
Proof. induction 1; simpl; congruence. Qed.

Lemma mapM_Forall2 {A B} (f : A -> result B) l l' :
  mapM f l = Ok l' -> Forall2 (fun x y => f x = Ok y) l l'.
Proof.
  revert l'. induction l as [|x l IH]; intros l' H; simpl in H.
  - inversion H. constructor.
  - destruct (f x) as [y|] eqn:E; [|done]. cbn [mbind result_bind] in H.
    destruct (mapM f l) as [ys|]; [|done]. inversion H; subst.
    constructor; [done|]. by apply IH.
Qed.

(** The stages of a run of the extractor that returns. *)
Lemma extractor_stages papers year_cutoff my_name w names affiliations w' :
  extractor papers year_cutoff my_name w = (Ok (names, affiliations), w') ->
  exists cleaned unique kept w1 raws,
    dedup cleaned = Ok unique
    /\ remove_self my_name unique = Ok kept
    /\ names = sort_names kept
    /\ mapMW World get_scholar_info names w1 = (Ok raws, w')
    /\ _nsf_affiliation_cleanup raws = Ok affiliations.
Proof.
  unfold _get_coauthors_from_pubs. intros H.
  apply bindW_Ok in H as (current_year & w1 & _ & H).
  apply bindW_Ok in H as (papers_subset & w2 & _ & H).
  apply bindW_Ok in H as (per_paper & w3 & _ & H).
  apply bindW_Ok in H as (cleaned & w4 & _ & H).
  apply bindW_Ok in H as (unique & w5 & [Hd ->]%lift_Ok & H).
  apply bindW_Ok in H as (kept & w6 & [Hr ->]%lift_Ok & H).
  apply bindW_Ok in H as (raws & w7 & Hl & H).
  apply bindW_Ok in H as (cleaned_affs & w8 & [Hc ->]%lift_Ok & H).
  inversion H; subst. by exists cleaned, unique, kept, w4, raws.
Qed.

(** C6: the profile's own name is not among the names the extractor
    returns: when it is one of the de-duplicated names it is removed, and
    the de-duplicated list holds no name twice. *)
Theorem extractor_excludes_self papers year_cutoff (my_name : string) w
    names affiliations w' :
  extractor papers year_cutoff (Some my_name) w = (Ok (names, affiliations), w') ->
  my_name ∉ names.
Proof.
  intros (cleaned & unique & kept & w1 & raws & Hd & Hr & -> & _)%extractor_stages.
  apply DedupFacts.dedup_NoDup in Hd as [Hnodup Hempty].
  unfold sort_names. rewrite merge_sort_Permutation.
  by eapply DedupFacts.remove_self_not_elem.
Qed.

(** From the loop of lookups on, the extractor is the lookups followed
    by the cleaner. *)
Lemma extractor_from_lookups papers year_cutoff my_name w names w1 :
  reaches_lookups World fill today_year int_of_str set_order
    papers year_cutoff my_name w names w1 ->
  extractor papers year_cutoff my_name w
  = bindW World (mapMW World get_scholar_info names)
      (fun raws => bindW World (lift World (_nsf_affiliation_cleanup raws))
                     (fun affiliations => ret World (names, affiliations))) w1.
Proof.
  intros (ps & pp & cleaned & unique & kept & Hf & Hp & Hn & Hd & Hr & ->).
  unfold _get_coauthors_from_pubs.
  unfold bindW at 1. unfold bindW at 1. unfold lift at 1. rewrite Hf.
  unfold bindW at 1. rewrite Hp.
  unfold bindW at 1. unfold lift at 1. rewrite Hn.
  unfold bindW at 1. unfold lift at 1. rewrite Hd.
  unfold bindW at 1. unfold lift at 1. by rewrite Hr.
Qed.

(** X29: the lookup returns the empty string when the search is
    exhausted and "An error occurred: " followed by the message for any
    other [Exception]; it raises only when it is interrupted by an
    exception outside [Exception], and then it raises that exception.  In
    the extractor, once the names are sorted, either a lookup is
    interrupted in that way and the extractor raises, or the loop of
    lookups runs to its end, with one entry for each name, and the
    outcome of the extractor is the outcome of the affiliation cleaner on
    these entries. *)
Theorem lookup_failures_do_not_stop_the_lookups :
  (forall name w w', scholar_lookup name w = (inl StopIteration, w') ->
     get_scholar_info name w = (Ok "", w'))
  /\ (forall name msg w w', scholar_lookup name w = (inl (ServiceError msg), w') ->
      get_scholar_info name w = (Ok ("An error occurred: " +:+ msg), w'))
  /\ (forall name w w', scholar_lookup name w = (inl Interrupt, w') ->
      get_scholar_info name w = (Raise (Upstream Interrupt), w'))
  /\ (forall name w e w', get_scholar_info name w = (Raise e, w') ->
      e = Upstream Interrupt /\ scholar_lookup name w = (inl Interrupt, w'))
  /\ (forall papers year_cutoff my_name w names w1,
      reaches_lookups World fill today_year int_of_str set_order
        papers year_cutoff my_name w names w1 ->
      (exists raws w',
         lookups w1 names raws w' /\ length raws = length names
         /\ extractor papers year_cutoff my_name w
            = (match _nsf_affiliation_cleanup raws with
               | Ok affiliations => Ok (names, affiliations)
               | Raise e => Raise e
               end, w'))
      \/ (exists w',
            mapMW World get_scholar_info names w1 = (Raise (Upstream Interrupt), w')
            /\ extractor papers year_cutoff my_name w
               = (Raise (Upstream Interrupt), w'))).
Proof.
  split_and!.
  - intros name w w' E. unfold Scholar.get_scholar_info. by rewrite E.
  - intros name msg w w' E. unfold Scholar.get_scholar_info. by rewrite E.
  - intros name w w' E. unfold Scholar.get_scholar_info. by rewrite E.
  - intros name w e w' H.
    destruct (get_scholar_info_cases name w) as [(a & w1 & E)|(w1 & E & Hs)];
      rewrite E in H; [done|]. by inversion H; subst.
  - intros papers year_cutoff my_name w names w1 Hreach.
    rewrite (extractor_from_lookups _ _ _ _ _ _ Hreach). unfold bindW at 1 3.
    destruct (lookups_cases names w1) as [(raws & w' & E & Hl)|(w' & E)]; rewrite E.
    + left. exists raws, w'. split_and!; [done|by erewrite <- lookups_length|].
      unfold bindW, lift, ret. by destruct (_nsf_affiliation_cleanup raws).
    + right. eauto.
Qed.

(** C8: the two lists the extractor returns have the same length, the
    affiliation at each index is the one looked up and cleaned for the
    name at that index, and the names are in ascending order. *)
Theorem extractor_lists_aligned_and_sorted papers year_cutoff my_name w
    names affiliations w' :
  extractor papers year_cutoff my_name w = (Ok (names, affiliations), w') ->
  length names = length affiliations
  /\ (exists w1, aligned w1 names affiliations w')
  /\ StronglySorted String.le names.
Proof.
  intros (cleaned & unique & kept & w1 & raws & _ & _ & Hn & Hl & Hc)%extractor_stages.
  apply mapMW_lookups in Hl. apply mapM_Forall2 in Hc. split_and!.
  - rewrite (lookups_length _ _ _ _ Hl). by eapply Forall2_length.
  - exists w1, raws. by split.
  - rewrite Hn. apply StronglySorted_merge_sort; apply _.
Qed.

Lemma extractor_lengths papers year_cutoff my_name w names affiliations w' :
  extractor papers year_cutoff my_name w = (Ok (names, affiliations), w') ->
  length names = length affiliations.
Proof.
  intros (cleaned & unique & kept & w1 & raws & _ & _ & _ & Hl & Hc)%extractor_stages.
  apply mapMW_lookups, lookups_length in Hl. apply mapM_Forall2, Forall2_length in Hc.
  congruence.
Qed.

(** C10: [get_coauthors] returns the list object it handed to the
    writer.  With the name of a file that opens, every name comes back
    with a double-quote character put before and after it, so that,
    unless there are no names, the list returned is not the list of the
    names; without a file name the names come back as the extractor gave
    them.  With the name of a file that does not open, the exception of
    the open leaves [get_coauthors]. *)
Theorem get_coauthors_quotes_names_when_written scholar_id years_back st w
    prof w1 names affiliations w2 :
  _get_scholar_profile scholar_id w = (inr prof, w1) ->
  extractor (default [] (profile_publications prof))
    (cutoff_year (today_year w) years_back)
    (Some (default "" (profile_name prof))) w1 = (Ok (names, affiliations), w2) ->
  let l := fresh (dom (heap st)) in
  (forall filename, open_for_writing st filename = None ->
     exists st',
       get_coauthors scholar_id years_back (Some filename) st w = (Ok (l, st'), w2)
       /\ heap st' !! l
          = Some ((fun name => String "034"%char (name +:+ String "034"%char ""))
                    <$> names)
       /\ (names <> [] -> heap st' !! l <> Some names))
  /\ (forall filename e, filename <> "" -> open_for_writing st filename = Some e ->
       get_coauthors scholar_id years_back (Some filename) st w = (Raise e, w2))
  /\ (exists st',
       get_coauthors scholar_id years_back None st w = (Ok (l, st'), w2)
       /\ heap st' !! l = Some names).
Proof.
  intros Hprof Hext l. pose proof (extractor_lengths _ _ _ _ _ _ _ Hext) as Hlen.
  split_and!.
  - intros filename Hopen.
    assert (filename <> "") as Hname by (by intros ->).
    destruct (WriterFacts.dump_to_csv_aligned l names affiliations filename
                (PyState (<[l := names]> (heap st)) (files st) (unwritable st)))
      as (st' & E & Hh & _);
      [done|by cbn [heap]; rewrite lookup_insert_eq|done|].
    exists st'. split_and!; [|done|].
    + unfold Scholar.get_coauthors, bindW, call. rewrite Hprof, Hext.
      cbn [fst snd]. fold l. rewrite E.
      by destruct (String.eqb_spec filename "").
    + rewrite Hh. destruct names as [|name names]; [done|]. intros _ [= Hq _].
      apply (f_equal String.length) in Hq. unfold quoted in Hq.
      cbn [String.length] in Hq. rewrite StrFacts.slength_app in Hq.
      cbn [String.length] in Hq. lia.
  - intros filename e Hname Hopen.
    unfold Scholar.get_coauthors, bindW, call. rewrite Hprof, Hext.
    cbn [fst snd]. fold l. unfold _dump_to_csv.
    replace (open_for_writing _ filename) with (Some e).
    by destruct (String.eqb_spec filename "").
  - exists (PyState (<[l := names]> (heap st)) (files st) (unwritable st)). split.
    + unfold Scholar.get_coauthors, bindW, call. by rewrite Hprof, Hext.
    + cbn [heap]. by rewrite lookup_insert_eq.
Qed.

End ServiceFacts.

Lemma extractor_excludes_self_witness :
  Demo.extract Demo.papers (Some 2022%Z) (Some "Doe, Jane") 0
  = (Ok (["Johnson, Ann M"; "Roe, Richard"; "Smith, John A"],
         ["Example University"; "An error occurred: timed out"; "Example University"]),
     7)
  /\ "Doe, Jane" ∉ ["Johnson, Ann M"; "Roe, Richard"; "Smith, John A"].
Proof.
  assert (Demo.extract Demo.papers (Some 2022%Z) (Some "Doe, Jane") 0
          = (Ok (["Johnson, Ann M"; "Roe, Richard"; "Smith, John A"],
                 ["Example University"; "An error occurred: timed out";
                  "Example University"]), 7)) as E by (vm_compute; reflexivity).
  split; [exact E|].
  exact (extractor_excludes_self Demo.World Demo.search_author Demo.fill
           Demo.today_year Demo.int_of_str Demo.set_order
           Demo.papers (Some 2022%Z) "Doe, Jane" 0 _ _ 7 E).
Defined.

Lemma lookup_failures_do_not_stop_the_lookups_witness :
  get_scholar_info Demo.World Demo.search_author "Doe, Jane" 0 = (Ok "", 2)
  /\ get_scholar_info Demo.World Demo.search_author "Roe, Richard" 0
     = (Ok "An error occurred: timed out", 1)
  /\ get_scholar_info Demo.World DemoFailing.search_author "Roe, Richard" 0
     = (Raise (Upstream Interrupt), 1)
  /\ exists raws w',
       lookups Demo.search_author 2
         ["Doe, Jane"; "Johnson, Ann M"; "Roe, Richard"; "Smith, John A"] raws w'
       /\ length raws = 4
       /\ Demo.extract Demo.papers (Some 2022%Z) None 0
          = (match _nsf_affiliation_cleanup raws with
             | Ok affiliations =>
                 Ok (["Doe, Jane"; "Johnson, Ann M"; "Roe, Richard"; "Smith, John A"],
                     affiliations)
             | Raise e => Raise e
             end, w').
Proof.
  destruct (lookup_failures_do_not_stop_the_lookups Demo.World Demo.search_author
              Demo.fill Demo.today_year Demo.int_of_str Demo.set_order)
    as (Hstop & Herr & _ & _ & Hloop).
  split_and!.
  - apply (Hstop "Doe, Jane" 0 2). reflexivity.
  - apply (Herr "Roe, Richard" "timed out" 0 1). reflexivity.
  - apply (lookup_failures_do_not_stop_the_lookups Demo.World
             DemoFailing.search_author Demo.fill Demo.today_year Demo.int_of_str
             Demo.set_order).
    reflexivity.
  - destruct (Hloop Demo.papers (Some 2022%Z) None 0
                ["Doe, Jane"; "Johnson, Ann M"; "Roe, Richard"; "Smith, John A"] 2)
      as [Hok|(w' & Hint & _)].
    + exists (take 2 Demo.papers),
        [["John Smith"; "Jane Doe"; "John A Smith"; "Richard Roe"];
         ["John Smith"; "M Ann Johnson"]],
        ["Doe, Jane"; "Smith, John A"; "Roe, Richard"; "Smith, John";
         "Johnson, Ann M"],
        ["Doe, Jane"; "Smith, John A"; "Roe, Richard"; "Johnson, Ann M"],
        ["Doe, Jane"; "Smith, John A"; "Roe, Richard"; "Johnson, Ann M"].
      split_and!; vm_compute; reflexivity.
    + exact Hok.
    + vm_compute in Hint. discriminate Hint.
Defined.

(** C7: the lookup of "Doe, Jane" fails with a message that holds
    "scholar" and an "@"; the lookup returns "An error occurred: ..." as
    the claim says, but the extractor passes this text to the affiliation
    cleaner, which raises [IndexError] on it: the extractor raises, and
    the co-authors whose lookups succeeded are lost with it, where the
    claim says that a failed lookup never aborts the batch. *)
Theorem lookup_failure_can_lose_the_batch :
  let diagnostic :=
    "An error occurred: blocked, write to scholar-help@example.org" in
  scholar_lookup Demo.World DemoFailing.search_author "Doe, Jane" 0
  = (inl (ServiceError "blocked, write to scholar-help@example.org"), 1)
  /\ get_scholar_info Demo.World DemoFailing.search_author "Doe, Jane" 0
     = (Ok diagnostic, 1)
  /\ get_scholar_info Demo.World DemoFailing.search_author "Johnson, Ann M" 0
     = (Ok "Professor, Example University", 2)
  /\ clean_affiliation diagnostic = Raise IndexError
  /\ DemoFailing.extract Demo.papers (Some 2022%Z) (Some "Roe, Richard") 0
     = (Raise IndexError, 7).
Proof. split_and!; vm_compute; reflexivity. Qed.

Lemma extractor_lists_aligned_and_sorted_witness :
  let names := ["Doe, Jane"; "Johnson, Ann M"; "Roe, Richard"; "Smith, John A"] in
  let affiliations :=
    [""; "Example University"; "An error occurred: timed out"; "Example University"] in
  length names = length affiliations
  /\ (exists w1, aligned Demo.search_author w1 names affiliations 9)
  /\ StronglySorted String.le names.
Proof.
  apply (extractor_lists_aligned_and_sorted Demo.World Demo.search_author Demo.fill
           Demo.today_year Demo.int_of_str Demo.set_order
           Demo.papers (Some 2022%Z) None 0).
  vm_compute. reflexivity.
Defined.

Lemma get_coauthors_quotes_names_when_written_witness :
  let names := ["Doe, Jane"; "Johnson, Ann M"; "Roe, Richard"] in
  let st := Demo.state_without_dir in
  (exists st',
     Demo.coauthors "1KXRphAAAAAJ" (Some 4%Z) (Some "coauthors.csv") st 0
     = (Ok (0, st'), 8)
     /\ heap st' !! 0
        = Some [String "034"%char ("Doe, Jane" +:+ String "034"%char "");
                String "034"%char ("Johnson, Ann M" +:+ String "034"%char "");
                String "034"%char ("Roe, Richard" +:+ String "034"%char "")]
     /\ heap st' !! 0 <> Some names)
  /\ Demo.coauthors "1KXRphAAAAAJ" (Some 4%Z) (Some "no_such_dir/coauthors.csv") st 0
     = (Raise OSError, 8)
  /\ (exists st',
       Demo.coauthors "1KXRphAAAAAJ" (Some 4%Z) None st 0 = (Ok (0, st'), 8)
       /\ heap st' !! 0 = Some names).
Proof.
  intros names st.
  destruct (get_coauthors_quotes_names_when_written Demo.World Demo.search_author
              Demo.fill Demo._get_scholar_profile Demo.today_year Demo.int_of_str
              Demo.set_order "1KXRphAAAAAJ" (Some 4%Z) st 0
              (Profile (Some "Smith, John A") (Some Demo.papers)) 1
              names ["";  "Example University"; "An error occurred: timed out"] 8)
    as (Hfile & Hfails & Hnone); [reflexivity|vm_compute; reflexivity|].
  split_and!.
  - destruct (Hfile "coauthors.csv") as (st' & E & Hh & Hne);
      [vm_compute; reflexivity|].
    exists st'. split_and!; [exact E|exact Hh|by apply Hne].
  - apply (Hfails "no_such_dir/coauthors.csv" OSError); [done|].
    vm_compute; reflexivity.
  - exact Hnone.
Defined.

(** * Further properties of the code *)

(** ** More on the string primitives *)

Module StrMore.
Import Str StrFacts NameFacts DedupFacts.

Lemma cut_app_None_l sep a b : cut sep (a +:+ b) = None -> cut sep a = None.
Proof.
  intros H. destruct (cut sep a) as [[x y]|] eqn:E; [|done].
  apply cut_Some in E as ->. rewrite !sapp_assoc in H.
  by destruct (cut_app_is_Some sep x (y +:+ b)) as [? Hs]; rewrite Hs in H.
Qed.

Lemma cut_app_None_r sep a b : cut sep (a +:+ b) = None -> cut sep b = None.
Proof.
  induction a as [|c a IH]; [done|].
  rewrite sapp_cons. cbn [cut].
  destruct (strip_prefix sep _); [done|].
  destruct (cut sep (a +:+ b)) as [[? ?]|]; [done|]. auto.
Qed.

(** Splitting and joining again gives the text back. *)
Lemma join_split sep s : sep <> "" -> join sep (split sep s) = s.
Proof.
  intros Hsep. remember (String.length s) as n eqn:Hn.
  revert s Hn. induction (lt_wf n) as [n _ IH]; intros s ->.
  destruct (cut sep s) as [[a b]|] eqn:E.
  - rewrite (split_Some _ _ _ _ Hsep E).
    pose proof (cut_length _ _ _ _ E) as Hlen.
    assert (0 < String.length sep) by (destruct sep; [done|simpl; lia]).
    assert (join sep (split sep b) = b) as Hb by (eapply IH; [|done]; lia).
    pose proof (split_nonempty sep b) as Hne.
    unfold join in *. destruct (split sep b) as [|p ps]; [done|].
    change (String.concat sep (a :: p :: ps))
      with (a +:+ sep +:+ String.concat sep (p :: ps)).
    rewrite Hb. symmetry. by apply cut_Some.
  - by rewrite (split_None _ _ E).
Qed.

Lemma cut_space_rest_length s a b :
  cut " " s = Some (a, b) -> String.length b < String.length s.
Proof. intros ->%cut_Some. rewrite !slength_app. simpl. lia. Qed.

(** The pieces of a split on the space are tokens. *)
Lemma split_space_tokens s : Forall token (split " " s).
Proof.
  remember (String.length s) as n eqn:Hn.
  revert s Hn. induction (lt_wf n) as [n _ IH]; intros s ->.
  destruct (cut " " s) as [[a b]|] eqn:E.
  - rewrite (split_Some " " _ _ _ ltac:(done) E). constructor.
    + by eapply cut_space_first_token.
    + eapply IH; [|done]. by eapply cut_space_rest_length.
  - rewrite (split_None _ _ E). by repeat constructor.
Qed.

Lemma join_snoc sep rem last_name :
  rem <> [] -> join sep (rem ++ [last_name]) = join sep rem +:+ sep +:+ last_name.
Proof.
  induction rem as [|t rem IH]; intros Hne; [done|].
  destruct rem as [|t2 rem]; [done|].
  change (join sep ((t :: t2 :: rem) ++ [last_name]))
    with (t +:+ sep +:+ join sep ((t2 :: rem) ++ [last_name])).
  rewrite IH by done.
  change (join sep (t :: t2 :: rem)) with (t +:+ sep +:+ join sep (t2 :: rem)).
  by rewrite !sapp_assoc.
Qed.

(** No [", "] arises between a text that does not end in a comma and a
    token put after it. *)
Lemma cut_comma_app_token u f :
  cut ", " (u +:+ " ") = None -> token f -> cut ", " (u +:+ " " +:+ f) = None.
Proof.
  intros Hu Hf. induction u as [|c u IH].
  - rewrite sapp_nil_l. change (" " +:+ f) with (String " " f).
    cbn [cut]. rewrite strip_comma_space. cbn. by rewrite (cut_comma_token _ Hf).
  - rewrite sapp_cons in Hu. cbn [cut] in Hu.
    destruct (strip_prefix ", " (String c (u +:+ " "))) eqn:Es; [done|].
    destruct (cut ", " (u +:+ " ")) as [[? ?]|] eqn:Ec; [done|].
    rewrite sapp_cons. cbn [cut]. rewrite (IH eq_refl).
    rewrite <- (sapp_assoc u " " f), <- sapp_cons.
    rewrite strip_prefix_app_long, Es; [done|].
    rewrite <- sapp_cons, slength_app. simpl. lia.
Qed.

End StrMore.

(** ** More on the name canonicaliser *)

Module NameMore.
Import Str StrFacts NameFacts DedupFacts StrMore.

Lemma getitem_split_1 l rest :
  token l -> cut ", " rest = None ->
  split ", " (l +:+ ", " +:+ rest) = [l; rest].
Proof.
  intros Hl Hrest.
  rewrite (split_Some ", " _ l rest); [|done|by apply cut_comma_token_app].
  by rewrite (split_None _ _ Hrest).
Qed.

(** The key of a name made of a token, [", "] and a text without
    [", "]. *)
Lemma person_key_parts l rest first :
  token l -> cut ", " rest = None -> getitem (split " " rest) 0 = Ok first ->
  person_key (l +:+ ", " +:+ rest) = Ok (l, first).
Proof.
  intros Hl Hrest Hfirst. unfold person_key.
  by rewrite (getitem_split_1 _ _ Hl Hrest), Hfirst.
Qed.

Lemma nsf_name_token t : token t -> nsf_name t = Ok (t +:+ ", ").
Proof. intros Ht. unfold nsf_name. by rewrite (split_None _ _ Ht). Qed.

Lemma join_cons_cons sep t t2 ts :
  join sep (t :: t2 :: ts) = t +:+ sep +:+ join sep (t2 :: ts).
Proof. reflexivity. Qed.

Lemma snoc_cases {A} (l : list A) : l <> [] -> exists rem x, l = rem ++ [x].
Proof.
  intros Hne. destruct (exists_last Hne) as (rem & x & ->). eauto.
Qed.

Lemma nsf_name_comma_free raw :
  contains ", " raw = false ->
  exists c last_name first_name,
    nsf_name raw = Ok c
    /\ getitem (split " " raw) (-1) = Ok last_name
    /\ person_key c = Ok (last_name, first_name).
Proof.
  intros Hraw%contains_false.
  pose proof (split_space_tokens raw) as Htok.
  pose proof (join_split " " raw ltac:(done)) as Hjoin.
  destruct (snoc_cases (split " " raw) (split_nonempty _ _)) as (rem & l & E).
  rewrite E in *. rewrite getitem_last.
  apply Forall_app in Htok as [Hrem Hl]. rewrite Forall_singleton in Hl.
  destruct rem as [|f [|m mid]].
  - cbn in Hjoin. subst raw. exists (l +:+ ", "), l, "".
    split_and!; [by apply nsf_name_token|done|].
    by apply person_key_parts.
  - cbn in Hjoin. subst raw. rewrite Forall_singleton in Hrem.
    exists (l +:+ ", " +:+ f), l, f.
    split_and!; [by apply nsf_name_two_tokens|done|].
    apply person_key_parts; [done|by apply cut_comma_token|].
    by rewrite (split_None _ _ Hrem).
  - assert (cut ", " (join " " (f :: m :: mid)) = None) as Hcomma.
    { rewrite <- Hjoin, join_snoc in Hraw by done. by apply cut_app_None_l in Hraw. }
    pose proof (nsf_name_more_tokens f m l mid) as Hn.
    change (f :: m :: mid ++ [l]) with ((f :: m :: mid) ++ [l]) in Hn.
    rewrite Hjoin in Hn.
    specialize (Hn ltac:(apply Forall_app; split; [done|by constructor])
                   ltac:(by apply contains_false)).
    pose proof Hrem as Hrem'.
    apply Forall_cons in Hrem' as [Hf [Hm _]%Forall_cons].
    destruct (len f <? 2)%nat.
    + exists (l +:+ ", " +:+ m +:+ " " +:+ f), l, m. split_and!; [done..|].
      apply person_key_parts; [done| |].
      * apply cut_comma_app_token; [|done].
        change ((f :: m :: mid) ++ [l]) with (f :: m :: (mid ++ [l])) in Hjoin.
        rewrite join_cons_cons in Hjoin.
        destruct (mid ++ [l]) as [|x xs] eqn:Emid; [by destruct mid|].
        rewrite join_cons_cons in Hjoin. rewrite <- Hjoin in Hraw.
        rewrite <- !sapp_assoc in Hraw. apply cut_app_None_l in Hraw.
        rewrite sapp_assoc in Hraw. by apply cut_app_None_r in Hraw.
      * by rewrite (split_Some " " _ m f ltac:(done) (cut_space_token_app _ _ Hm)).
    + exists (l +:+ ", " +:+ join " " (f :: m :: mid)), l, f. split_and!; [done..|].
      apply person_key_parts; [done..|].
      by rewrite split_join_space.
Qed.

End NameMore.

(** ** More on the name de-duplicator *)

Module DedupMore.
Import Str StrFacts NameFacts DedupFacts StrMore.

(** A name with a key is its last name, [", "] and the text the split
    gives as its second part. *)
Lemma person_key_shape c l f :
  person_key c = Ok (l, f) ->
  exists rest, c = l +:+ ", " +:+ rest /\ getitem (split ", " c) 1 = Ok rest.
Proof.
  unfold person_key. intros H.
  destruct (split ", " c) as [|l' [|r [|? ?]]] eqn:E; try done.
  destruct (getitem (split " " r) 0) as [f'|]; [|done]. inversion H; subst.
  exists r. split; [|done].
  apply split_two_inv in E as [E _]; [|done]. by apply cut_Some.
Qed.

Lemma person_key_raises c e : person_key c = Raise e -> e = ValueError.
Proof.
  unfold person_key. intros H.
  destruct (split ", " c) as [|l [|r [|? ?]]]; try (by inversion H).
  pose proof (split_nonempty " " r).
  by destruct (split " " r).
Qed.

(** An iteration raises only when the name has no key. *)
Lemma dedup_step_Ok st c k :
  person_key c = Ok k -> exists st', dedup_step st c = Ok st'.
Proof.
  destruct st as [unique seen], k as [l f]. intros Hk. unfold dedup_step.
  rewrite Hk. cbn [mbind result_bind].
  destruct (person_key_shape _ _ _ Hk) as (rest & _ & ->).
  cbn [mbind result_bind].
  destruct (bool_decide ((l, f) ∈ seen)); cbn [negb]; [|eauto].
  destruct (negb (rest =? f)%string); [|eauto].
  destruct (decide (l +:+ ", " +:+ f ∈ unique)) as [Hin|Hnotin].
  - rewrite bool_decide_eq_true_2 by done.
    destruct (list_remove_elem _ _ Hin) as [removed ->]. eauto.
  - rewrite bool_decide_eq_false_2 by done. eauto.
Qed.

Lemma dedup_step_raises st c e :
  dedup_step st c = Raise e -> person_key c = Raise ValueError /\ e = ValueError.
Proof.
  intros H. destruct (person_key c) as [k|e'] eqn:Hk.
  - destruct (dedup_step_Ok st c k Hk) as [st' Hst]. congruence.
  - pose proof (person_key_raises _ _ Hk) as ->.
    destruct st as [unique seen]. unfold dedup_step in H. rewrite Hk in H.
    by inversion H.
Qed.

Lemma dedup_loop_cases l : forall st,
  (exists st', dedup_loop st l = Ok st'
               /\ Forall (fun c => exists k, person_key c = Ok k) l)
  \/ (dedup_loop st l = Raise ValueError
      /\ Exists (fun c => person_key c = Raise ValueError) l).
Proof.
  induction l as [|c l IH]; intros st; cbn [dedup_loop].
  - left. eauto.
  - destruct (dedup_step st c) as [st1|e] eqn:Es.
    + cbn [mbind result_bind].
      assert (exists k, person_key c = Ok k) as Hk.
      { destruct (person_key c) as [k|e'] eqn:Hk; [eauto|].
        destruct st as [u s]. unfold dedup_step in Es. by rewrite Hk in Es. }
      destruct (IH st1) as [(st' & -> & Hall)|[-> Hex]]; [left|right]; eauto.
    + apply dedup_step_raises in Es as [Hk ->]. right. split; [done|]. by left.
Qed.

End DedupMore.

(** X3: a raw name of one token (no space in it, the empty text
    included) becomes that token followed by [", "]: the last name with
    an empty first name. *)
Theorem nsf_name_single_token (t : string) :
  token t -> nsf_name t = Ok (t +:+ ", ").
Proof. apply NameMore.nsf_name_token. Qed.

Lemma nsf_name_single_token_witness : nsf_name "Cher" = Ok "Cher, ".
Proof. apply (nsf_name_single_token "Cher"). reflexivity. Defined.

(** X4: a raw name that holds no [", "] is always canonicalised, and the
    canonical name always has a key for the de-duplication, whose last
    name is the last token of the raw name. *)
Theorem nsf_name_comma_free_has_key (raw : string) :
  Str.contains ", " raw = false ->
  exists c last_name first_name,
    nsf_name raw = Ok c
    /\ getitem (Str.split " " raw) (-1) = Ok last_name
    /\ person_key c = Ok (last_name, first_name).
Proof. apply NameMore.nsf_name_comma_free. Qed.

Lemma nsf_name_comma_free_has_key_witness :
  exists c last_name first_name,
    nsf_name "M Ann Lee Johnson" = Ok c
    /\ getitem (Str.split " " "M Ann Lee Johnson") (-1) = Ok last_name
    /\ person_key c = Ok (last_name, first_name).
Proof. apply (nsf_name_comma_free_has_key "M Ann Lee Johnson"). reflexivity. Defined.

(** X5: the de-duplication returns exactly when every name has a key,
    that is, splits on [", "] into two parts; otherwise it raises
    [ValueError]. *)
Theorem dedup_returns_iff_all_keys (all_coauthors : list string) :
  (exists unique, dedup all_coauthors = Ok unique
                  /\ Forall (fun c => exists k, person_key c = Ok k) all_coauthors)
  \/ (dedup all_coauthors = Raise ValueError
      /\ Exists (fun c => person_key c = Raise ValueError) all_coauthors).
Proof.
  unfold dedup.
  destruct (DedupMore.dedup_loop_cases all_coauthors ([], ∅))
    as [(st' & -> & Hall)|[-> Hex]]; [left|right]; eauto.
Qed.

Module DedupCover.
Import Str StrFacts NameFacts DedupFacts StrMore DedupMore.

Lemma dedup_cover_init : dedup_cover [] ([], ∅).
Proof.
  split_and!; cbn [fst snd].
  - by intros x ?%elem_of_nil.
  - by intros c ?%elem_of_nil.
  - intros k Hk. set_solver.
Qed.

Lemma dedup_step_cover proc st c st' :
  dedup_inv st -> dedup_cover proc st -> dedup_step st c = Ok st' ->
  dedup_cover (proc ++ [c]) st'.
Proof.
  destruct st as [unique seen]. intros [Hkeys Hnodup] (Hsub & Hproc & Hseen) H.
  cbn [fst snd] in *. unfold dedup_step in H.
  destruct (person_key c) as [[l f]|] eqn:Ek; [|done]. cbn [mbind result_bind] in H.
  assert (forall st0 : dedup_state, st0 = (unique, seen) -> (l, f) ∈ seen ->
            dedup_cover (proc ++ [c]) st0) as Hsame.
  { intros st0 -> Hin. split_and!; cbn [fst snd].
    - intros x Hx. apply elem_of_app. left. auto.
    - intros c0 [Hc0| ->%list_elem_of_singleton]%elem_of_app; [auto|eauto].
    - done. }
  destruct (decide ((l, f) ∈ seen)) as [Hin|Hnotin].
  - rewrite !bool_decide_eq_true_2 in H by done. cbn [negb] in H.
    destruct (getitem (split ", " c) 1) as [second|]; [|done].
    cbn [mbind result_bind] in H.
    destruct (negb (second =? f)%string); [|inversion H; by apply Hsame].
    destruct (bool_decide (l +:+ ", " +:+ f ∈ unique)); [|inversion H; by apply Hsame].
    destruct (list_remove (l +:+ ", " +:+ f) unique) as [removed|] eqn:Er; [|done].
    inversion H; subst st'. clear H.
    apply list_remove_Ok in Er as (l1 & l2 & -> & ->).
    split_and!; cbn [fst snd].
    + intros x [Hx| ->%list_elem_of_singleton]%elem_of_app; [|set_solver].
      apply elem_of_app. left. apply Hsub. set_solver.
    + intros c0 [Hc0| ->%list_elem_of_singleton]%elem_of_app; [auto|eauto].
    + intros k Hk. destruct (Hseen k Hk) as (x & Hx & Hxk).
      destruct (decide (x = l +:+ ", " +:+ f)) as [->|Hne].
      * rewrite (person_key_bare _ _ _ Ek) in Hxk. inversion Hxk; subst k.
        exists c. split; [set_solver|done].
      * exists x. split; [set_solver|done].
  - rewrite bool_decide_eq_false_2 in H by done. cbn [negb] in H.
    inversion H; subst st'. clear H. split_and!; cbn [fst snd].
    + intros x [Hx| ->%list_elem_of_singleton]%elem_of_app; set_solver.
    + intros c0 [Hc0| ->%list_elem_of_singleton]%elem_of_app.
      * destruct (Hproc c0 Hc0) as (k & ? & ?). exists k. set_solver.
      * exists (l, f). set_solver.
    + intros k [Hk| ->%elem_of_singleton]%elem_of_union.
      * destruct (Hseen k Hk) as (x & ? & ?). exists x. set_solver.
      * exists c. set_solver.
Qed.

Lemma dedup_loop_cover l : forall proc st st',
  dedup_inv st -> dedup_cover proc st -> dedup_loop st l = Ok st' ->
  dedup_inv st' /\ dedup_cover (proc ++ l) st'.
Proof.
  induction l as [|c l IH]; intros proc st st' Hinv Hcov H; simpl in H.
  - inversion H; subst. by rewrite app_nil_r.
  - destruct (dedup_step st c) as [st1|] eqn:E; [|done].
    cbn [mbind result_bind] in H.
    replace (proc ++ c :: l) with ((proc ++ [c]) ++ l) by (by rewrite <- app_assoc).
    eapply IH; [| |done].
    + by eapply dedup_step_inv.
    + by eapply dedup_step_cover.
Qed.

Lemma NoDup_fmap_eq {A B} (f : A -> B) (l : list A) x y :
  NoDup (f <$> l) -> x ∈ l -> y ∈ l -> f x = f y -> x = y.
Proof.
  induction l as [|a l IH]; intros Hn Hx Hy Hf; [by apply elem_of_nil in Hx|].
  rewrite fmap_cons in Hn. apply NoDup_cons in Hn as [Ha Hn].
  apply elem_of_cons in Hx as [->|Hx]; apply elem_of_cons in Hy as [->|Hy]; try done.
  - exfalso. apply Ha. rewrite Hf. by apply list_elem_of_fmap_2.
  - exfalso. apply Ha. rewrite <- Hf. by apply list_elem_of_fmap_2.
  - by apply IH.
Qed.

(** Names whose keys are all there and all different are all kept, in
    their order. *)
Lemma dedup_loop_distinct l : forall unique seen,
  Forall (fun c => exists k, person_key c = Ok k /\ k ∉ seen) l ->
  NoDup (person_key <$> l) ->
  exists seen', dedup_loop (unique, seen) l = Ok (unique ++ l, seen').
Proof.
  induction l as [|c l IH]; intros unique seen Hall Hn; cbn [dedup_loop].
  - exists seen. by rewrite app_nil_r.
  - apply Forall_cons in Hall as [(k & Hk & Hnot) Hall].
    rewrite fmap_cons in Hn. apply NoDup_cons in Hn as [Hc Hn].
    rewrite Hk in Hc.
    assert (dedup_step (unique, seen) c = Ok (unique ++ [c], seen ∪ {[k]})) as ->.
    { unfold dedup_step. rewrite Hk. destruct k as [last_name first_name].
      cbn [mbind result_bind]. by rewrite bool_decide_eq_false_2. }
    cbn [mbind result_bind].
    destruct (IH (unique ++ [c]) (seen ∪ {[k]})) as [seen' E]; [|done|].
    + apply Forall_forall. intros c' Hc'.
      destruct (proj1 (Forall_forall _ _) Hall c' Hc') as (k' & Hk' & Hnot').
      exists k'. split; [done|].
      intros [?| ->%elem_of_singleton]%elem_of_union; [done|].
      apply Hc. rewrite <- Hk'. by apply list_elem_of_fmap_2.
    + exists seen'. by rewrite E, <- app_assoc.
Qed.

End DedupCover.

Module DedupOrder.
Import Str StrFacts NameFacts DedupFacts StrMore DedupMore DedupCover.

Lemma dedup_loop_app l1 l2 st :
  dedup_loop st (l1 ++ l2) = (dedup_loop st l1 ≫= fun st1 => dedup_loop st1 l2).
Proof.
  revert st. induction l1 as [|c l1 IH]; intros st; [done|].
  cbn [app dedup_loop]. destruct (dedup_step st c) as [st1|]; [|done].
  cbn [mbind result_bind]. apply IH.
Qed.

(** A kept name that is not the bare variant of its key is not removed
    by an iteration. *)
Lemma dedup_step_stays st c0 st' c k :
  dedup_step st c0 = Ok st' ->
  c ∈ st.1 -> person_key c = Ok k -> c <> k.1 +:+ ", " +:+ k.2 -> c ∈ st'.1.
Proof.
  destruct st as [unique seen]. intros H Hc Hk Hne. cbn [fst] in Hc.
  unfold dedup_step in H.
  destruct (person_key c0) as [[l f]|] eqn:Ek; [|done]. cbn [mbind result_bind] in H.
  destruct (bool_decide ((l, f) ∈ seen)); cbn [negb] in H;
    [|inversion H; subst; cbn [fst]; set_solver].
  destruct (getitem (split ", " c0) 1) as [second|]; [|done].
  cbn [mbind result_bind] in H.
  destruct (negb (second =? f)%string); [|by inversion H; subst].
  destruct (bool_decide (l +:+ ", " +:+ f ∈ unique)); [|by inversion H; subst].
  destruct (list_remove (l +:+ ", " +:+ f) unique) as [removed|] eqn:Er; [|done].
  inversion H; subst st'. clear H. cbn [fst].
  apply list_remove_Ok in Er as (l1 & l2 & -> & ->).
  assert (c <> l +:+ ", " +:+ f) as Hbare.
  { intros ->. rewrite (person_key_bare _ _ _ Ek) in Hk. inversion Hk; subst k.
    by apply Hne. }
  set_solver.
Qed.

Lemma dedup_loop_stays l : forall st st' c k,
  dedup_loop st l = Ok st' ->
  c ∈ st.1 -> person_key c = Ok k -> c <> k.1 +:+ ", " +:+ k.2 -> c ∈ st'.1.
Proof.
  induction l as [|c0 l IH]; intros st st' c k H Hc Hk Hne; cbn [dedup_loop] in H.
  - by inversion H; subst.
  - destruct (dedup_step st c0) as [st1|] eqn:E; [|done].
    cbn [mbind result_bind] in H.
    eapply IH; [done| |done..]. by eapply dedup_step_stays.
Qed.

Lemma mapM_total {A B} (f : A -> result B) (P : B -> Prop) l :
  Forall (fun x => exists y, f x = Ok y /\ P y) l ->
  exists ys, mapM f l = Ok ys /\ Forall P ys /\ length ys = length l.
Proof.
  induction 1 as [|x l (y & Hy & HP) _ (ys & E & HPs & Hlen)].
  - exists []. by repeat split.
  - exists (y :: ys). cbn [mapM]. rewrite Hy, E.
    split_and!; [done|by constructor|simpl; congruence].
Qed.

(** The four ways an iteration can go. *)
Lemma dedup_step_new unique seen c k :
  person_key c = Ok k -> k ∉ seen ->
  dedup_step (unique, seen) c = Ok (unique ++ [c], seen ∪ {[k]}).
Proof.
  intros Hk Hnot. unfold dedup_step. rewrite Hk. destruct k as [l f].
  cbn [mbind result_bind]. by rewrite bool_decide_eq_false_2.
Qed.

Lemma dedup_step_bare unique seen l f :
  person_key (l +:+ ", " +:+ f) = Ok (l, f) -> (l, f) ∈ seen ->
  dedup_step (unique, seen) (l +:+ ", " +:+ f) = Ok (unique, seen).
Proof.
  intros Hk Hin. unfold dedup_step. rewrite Hk. cbn [mbind result_bind].
  rewrite !bool_decide_eq_true_2 by done. cbn [negb].
  destruct (person_key_shape _ _ _ Hk) as (rest & Hc & ->).
  apply (inj (String.app l)), (inj (String.app ", ")) in Hc. subst rest.
  cbn [mbind result_bind]. by rewrite String.eqb_refl.
Qed.

Lemma dedup_step_replace unique seen c l f removed :
  person_key c = Ok (l, f) -> (l, f) ∈ seen -> c <> l +:+ ", " +:+ f ->
  list_remove (l +:+ ", " +:+ f) unique = Ok removed ->
  dedup_step (unique, seen) c = Ok (removed ++ [c], seen).
Proof.
  intros Hk Hin Hne Hrem. unfold dedup_step. rewrite Hk. cbn [mbind result_bind].
  rewrite !bool_decide_eq_true_2 by done. cbn [negb].
  destruct (person_key_shape _ _ _ Hk) as (rest & Hc & ->).
  cbn [mbind result_bind].
  assert ((rest =? f)%string = false) as ->.
  { apply String.eqb_neq. intros ->. by apply Hne. }
  cbn [negb]. rewrite bool_decide_eq_true_2, Hrem; [done|].
  apply list_remove_Ok in Hrem as (l1 & l2 & -> & _). set_solver.
Qed.

Lemma dedup_step_drop unique seen c l f :
  person_key c = Ok (l, f) -> (l, f) ∈ seen -> l +:+ ", " +:+ f ∉ unique ->
  dedup_step (unique, seen) c = Ok (unique, seen).
Proof.
  intros Hk Hin Hnot. unfold dedup_step. rewrite Hk. cbn [mbind result_bind].
  rewrite !bool_decide_eq_true_2 by done. cbn [negb].
  destruct (person_key_shape _ _ _ Hk) as (rest & Hc & ->).
  cbn [mbind result_bind]. rewrite bool_decide_eq_false_2 by done.
  by destruct (negb _).
Qed.

End DedupOrder.

(** X6: when the de-duplication returns, every kept name is one of the
    names given, no two kept names have the same key, and the key of
    every name given is the key of a kept name. *)
Theorem dedup_keeps_one_name_per_key (all_coauthors unique : list string) :
  dedup all_coauthors = Ok unique ->
  (forall x, x ∈ unique -> x ∈ all_coauthors)
  /\ (forall x y, x ∈ unique -> y ∈ unique -> person_key x = person_key y -> x = y)
  /\ (forall c, c ∈ all_coauthors ->
      exists x, x ∈ unique /\ person_key x = person_key c).
Proof.
  unfold dedup. intros H.
  destruct (dedup_loop ([], ∅) all_coauthors) as [st|] eqn:E; [|done].
  inversion H; subst. clear H.
  destruct (DedupCover.dedup_loop_cover _ _ _ _ DedupFacts.dedup_inv_init
              DedupCover.dedup_cover_init E)
    as [[Hkeys Hnodup] (Hsub & Hproc & Hseen)].
  rewrite app_nil_l in *. split_and!.
  - done.
  - intros x y. by apply DedupCover.NoDup_fmap_eq.
  - intros c Hc. destruct (Hproc c Hc) as (k & Hk & Hin).
    destruct (Hseen k Hin) as (x & Hx & Hxk). exists x. split; [done|congruence].
Qed.

Lemma dedup_keeps_one_name_per_key_witness :
  exists x, x ∈ ["Smith, John A"; "Smith, Jane"]
            /\ person_key x = person_key "Smith, John".
Proof.
  destruct (dedup_keeps_one_name_per_key
              ["Smith, John"; "Smith, John A"; "Smith, Jane"]
              ["Smith, John A"; "Smith, Jane"]) as (_ & _ & Hcover).
  - vm_compute. reflexivity.
  - apply Hcover. set_solver.
Defined.

(** X7: names that all have a key, no two the same key, are all kept,
    in the order given: variants are merged only within one key. *)
Theorem dedup_distinct_keys_unchanged (all_coauthors : list string) :
  Forall (fun c => exists k, person_key c = Ok k) all_coauthors ->
  NoDup (person_key <$> all_coauthors) ->
  dedup all_coauthors = Ok all_coauthors.
Proof.
  intros Hall Hn. unfold dedup.
  destruct (DedupCover.dedup_loop_distinct all_coauthors [] ∅) as [seen' ->];
    [|done|done].
  eapply Forall_impl; [exact Hall|]. intros c [k Hk]. exists k. set_solver.
Qed.

Lemma dedup_distinct_keys_unchanged_witness :
  dedup ["Smith, John"; "Smith, Jane"] = Ok ["Smith, John"; "Smith, Jane"].
Proof.
  apply (dedup_distinct_keys_unchanged ["Smith, John"; "Smith, Jane"]).
  - repeat constructor; by eexists.
  - vm_compute. apply NoDup_cons. split; [|apply NoDup_singleton].
    intros H%list_elem_of_singleton. discriminate H.
Defined.

(** X8: de-duplicating a de-duplicated list changes nothing. *)
Theorem dedup_idempotent (all_coauthors unique : list string) :
  dedup all_coauthors = Ok unique -> dedup unique = Ok unique.
Proof.
  unfold dedup at 1. intros H.
  destruct (dedup_loop ([], ∅) all_coauthors) as [st|] eqn:E; [|done].
  inversion H; subst. clear H.
  destruct (DedupFacts.dedup_loop_inv _ _ _ DedupFacts.dedup_inv_init E)
    as [Hkeys Hnodup].
  unfold dedup.
  destruct (DedupCover.dedup_loop_distinct st.1 [] ∅) as [seen' ->]; [|done|done].
  apply Forall_forall. intros c Hc. destruct (Hkeys c Hc) as (k & Hk & _).
  exists k. set_solver.
Qed.

Lemma dedup_idempotent_witness :
  dedup ["Smith, John A"; "Smith, Jane"] = Ok ["Smith, John A"; "Smith, Jane"].
Proof.
  apply (dedup_idempotent ["Smith, John"; "Smith, John A"; "Smith, Jane"]).
  vm_compute. reflexivity.
Defined.

(** X9: of the bare variant [last + ", " + first] of a key and a name of
    that key that says more, the de-duplication keeps the one that says
    more, whichever of the two comes first. *)
Theorem dedup_richer_variant_wins (coauthor last_name first_name : string) :
  person_key coauthor = Ok (last_name, first_name) ->
  coauthor <> last_name +:+ ", " +:+ first_name ->
  dedup [last_name +:+ ", " +:+ first_name; coauthor] = Ok [coauthor]
  /\ dedup [coauthor; last_name +:+ ", " +:+ first_name] = Ok [coauthor].
Proof.
  intros Hk Hne.
  pose proof (DedupFacts.person_key_bare _ _ _ Hk) as Hb.
  unfold dedup. cbn [dedup_loop]. split.
  - rewrite (DedupOrder.dedup_step_new _ _ _ _ Hb) by set_solver.
    cbn [mbind result_bind app].
    rewrite (DedupOrder.dedup_step_replace _ _ _ _ _ [] Hk); [done|set_solver|done|].
    cbn [list_remove]. by rewrite String.eqb_refl.
  - rewrite (DedupOrder.dedup_step_new _ _ _ _ Hk) by set_solver.
    cbn [mbind result_bind app].
    by rewrite (DedupOrder.dedup_step_bare _ _ _ _ Hb) by set_solver.
Qed.

Lemma dedup_richer_variant_wins_witness :
  dedup ["Johnson, Ann"; "Johnson, Ann M"] = Ok ["Johnson, Ann M"]
  /\ dedup ["Johnson, Ann M"; "Johnson, Ann"] = Ok ["Johnson, Ann M"].
Proof.
  apply (dedup_richer_variant_wins "Johnson, Ann M" "Johnson" "Ann");
    [reflexivity|discriminate].
Defined.

(** X10: a name that is the first of its key among those given, and is
    not the bare variant of that key, is kept to the end: the later
    names of the same key, whatever they say, are dropped, so that the
    result depends on the order of the names given. *)
Theorem dedup_first_variant_with_middle_stays
    (before after unique : list string) (coauthor : string) (k : string * string) :
  dedup (before ++ coauthor :: after) = Ok unique ->
  person_key coauthor = Ok k ->
  coauthor <> k.1 +:+ ", " +:+ k.2 ->
  (forall x, x ∈ before -> person_key x <> Ok k) ->
  coauthor ∈ unique.
Proof.
  unfold dedup. intros H Hk Hne Hfirst.
  destruct (dedup_loop ([], ∅) (before ++ coauthor :: after)) as [st|] eqn:E; [|done].
  inversion H; subst. clear H.
  rewrite DedupOrder.dedup_loop_app in E.
  destruct (dedup_loop ([], ∅) before) as [st1|] eqn:E1; [|done].
  cbn [mbind result_bind dedup_loop] in E.
  destruct (dedup_step st1 coauthor) as [st2|] eqn:E2; [|done].
  cbn [mbind result_bind] in E.
  destruct (DedupCover.dedup_loop_cover _ _ _ _ DedupFacts.dedup_inv_init
              DedupCover.dedup_cover_init E1) as [_ (Hsub & _ & Hseen)].
  eapply DedupOrder.dedup_loop_stays; [exact E| |exact Hk|exact Hne].
  destruct st1 as [unique1 seen1]. unfold dedup_step in E2. rewrite Hk in E2.
  destruct k as [l f]. cbn [mbind result_bind] in E2.
  rewrite bool_decide_eq_false_2 in E2.
  - inversion E2; subst. cbn [fst]. set_solver.
  - intros (x & Hx & Hxk)%Hseen. by apply (Hfirst x); [apply Hsub|].
Qed.

Lemma dedup_first_variant_with_middle_stays_witness :
  "Smith, John A" ∈ ["Doe, Jane"; "Smith, John A"]
  /\ "Smith, John B" ∈ ["Doe, Jane"; "Smith, John B"].
Proof.
  split.
  - apply (dedup_first_variant_with_middle_stays ["Doe, Jane"]
             ["Smith, John B"; "Smith, John"] _ "Smith, John A" ("Smith", "John")).
    + vm_compute. reflexivity.
    + reflexivity.
    + discriminate.
    + intros x ->%list_elem_of_singleton. discriminate.
  - apply (dedup_first_variant_with_middle_stays ["Doe, Jane"]
             ["Smith, John A"; "Smith, John"] _ "Smith, John B" ("Smith", "John")).
    + vm_compute. reflexivity.
    + reflexivity.
    + discriminate.
    + intros x ->%list_elem_of_singleton. discriminate.
Defined.

(** X11: raw names that hold no [", "] never make the canonicaliser or
    the de-duplication raise: each gets its canonical name, in order, and
    every canonical name has a key. *)
Theorem comma_free_names_never_raise (coauthors : list string) :
  Forall (fun raw => Str.contains ", " raw = false) coauthors ->
  exists cleaned unique,
    _nsf_name_cleanup coauthors = Ok cleaned
    /\ length cleaned = length coauthors
    /\ dedup cleaned = Ok unique.
Proof.
  intros Hall.
  destruct (DedupOrder.mapM_total nsf_name
              (fun c => exists k, person_key c = Ok k) coauthors)
    as (cleaned & Hc & Hkeys & Hlen).
  { eapply Forall_impl; [exact Hall|]. intros raw Hraw.
    destruct (NameMore.nsf_name_comma_free raw Hraw) as (c & l & f & Hn & _ & Hk).
    eauto. }
  exists cleaned. unfold dedup.
  destruct (DedupMore.dedup_loop_cases cleaned ([], ∅))
    as [(st' & E & _)|[_ Hex]].
  - exists st'.1. by rewrite E.
  - exfalso. apply Exists_exists in Hex as (c & Hin & Hraise).
    destruct (proj1 (Forall_forall _ _) Hkeys c Hin) as [k Hk]. congruence.
Qed.

Lemma comma_free_names_never_raise_witness :
  exists cleaned unique,
    _nsf_name_cleanup ["John Smith"; "M Ann Johnson"; "Cher"] = Ok cleaned
    /\ length cleaned = 3
    /\ dedup cleaned = Ok unique.
Proof.
  apply (comma_free_names_never_raise ["John Smith"; "M Ann Johnson"; "Cher"]).
  repeat constructor.
Defined.

(** ** More on the affiliation cleaner *)

Module AffiliationMore.
Import Str StrFacts DedupFacts StrMore AffiliationFacts.

Lemma getitem_0 {A} (x : A) l : getitem (x :: l) 0 = Ok x.
Proof. reflexivity. Qed.

Lemma getitem_1 {A} (x : A) l : getitem (x :: l) 1 = getitem l 0.
Proof. reflexivity. Qed.

(** The second piece of a split: the text between the first separator
    and the next, or the end. *)
Lemma split_second_Some sep s x y :
  sep <> "" -> cut sep s = Some (x, y) ->
  getitem (split sep s) 1
  = Ok (match cut sep y with Some (m, _) => m | None => y end).
Proof.
  intros Hsep E. rewrite (split_Some _ _ _ _ Hsep E), getitem_1.
  destruct (cut sep y) as [[m z]|] eqn:Ey.
  - by rewrite (split_Some _ _ _ _ Hsep Ey).
  - by rewrite (split_None _ _ Ey).
Qed.

Lemma split_second_None sep s :
  cut sep s = None -> getitem (split sep s) 1 = Raise IndexError.
Proof. intros E. by rewrite (split_None _ _ E). Qed.

Lemma split_second_part sep s out :
  sep <> "" -> getitem (split sep s) 1 = Ok out ->
  exists pre post, s = pre +:+ out +:+ post.
Proof.
  intros Hsep H. destruct (cut sep s) as [[x y]|] eqn:E.
  - rewrite (split_second_Some _ _ _ _ Hsep E) in H. inversion H; subst. clear H.
    pose proof (cut_Some _ _ _ _ E) as ->.
    destruct (cut sep y) as [[m z]|] eqn:Ey.
    + pose proof (cut_Some _ _ _ _ Ey) as ->.
      exists (x +:+ sep), (sep +:+ z). by rewrite !sapp_assoc.
    + exists (x +:+ sep), "". by rewrite sapp_nil_r, sapp_assoc.
  - by rewrite (split_second_None _ _ E) in H.
Qed.

Lemma contains_at_sign_true a :
  contains "@" (lower a) = true <-> contains "@" a = true.
Proof. by rewrite contains_at_sign_lower. Qed.

(** The cleaner on a non-empty text with a title marker, rule by rule. *)
Lemma clean_affiliation_title a :
  has_title a = true ->
  clean_affiliation a =
  if contains " at " (lower a) then getitem (split " at " a) 1
  else if contains "@" a then getitem (split "@ " a) 1
  else match split ", " a with
       | [_] => Ok ""
       | [_; second] => Ok second
       | parts => Ok (join ", " (drop 1 parts))
       end.
Proof.
  intros Ht. unfold clean_affiliation.
  rewrite (has_title_nonempty _ Ht), Ht, contains_at_sign_lower. cbn [negb].
  destruct (contains " at " (lower a)); [done|].
  destruct (contains "@" a); [done|].
  pose proof (split_nonempty ", " a).
  by destruct (split ", " a) as [|p0 [|p1 [|p2 ps]]].
Qed.

Lemma clean_affiliation_raises a e : clean_affiliation a = Raise e -> e = IndexError.
Proof.
  intros H. destruct (has_title a) eqn:Ht.
  - rewrite (clean_affiliation_title _ Ht) in H.
    assert (forall sep, getitem (split sep a) 1 = Raise e -> e = IndexError) as Hget.
    { intros sep Hs. pose proof (split_nonempty sep a).
      destruct (split sep a) as [|p0 [|p1 ps]]; [done|by inversion Hs|done]. }
    destruct (contains " at " (lower a)); [by eapply Hget|].
    destruct (contains "@" a); [by eapply Hget|].
    by destruct (split ", " a) as [|p0 [|p1 [|p2 ps]]].
  - unfold clean_affiliation in H. rewrite Ht in H. by destruct (negb _).
Qed.

End AffiliationMore.

(** X12: on an affiliation with a title marker that holds [" at "] in
    lower case, the cleaner returns the text between the first [" at "]
    and the next one, or the end when there is no other; where [" at "]
    is found only after lowering the case, it raises [IndexError]. *)
Theorem affiliation_at_rule (affiliation : string) :
  has_title affiliation = true ->
  (forall x y, Str.cut " at " affiliation = Some (x, y) ->
     clean_affiliation affiliation
     = Ok (match Str.cut " at " y with Some (m, _) => m | None => y end))
  /\ (Str.contains " at " (Str.lower affiliation) = true ->
      Str.cut " at " affiliation = None ->
      clean_affiliation affiliation = Raise IndexError).
Proof.
  intros Ht. rewrite (AffiliationMore.clean_affiliation_title _ Ht). split.
  - intros x y E.
    assert (Str.contains " at " (Str.lower affiliation) = true) as ->.
    { rewrite (StrFacts.cut_Some _ _ _ _ E).
      apply AffiliationFacts.contains_at_lower. }
    by eapply AffiliationMore.split_second_Some.
  - intros -> E. by apply AffiliationMore.split_second_None.
Qed.

Lemma affiliation_at_rule_witness :
  clean_affiliation "Visiting Scholar at MIT" = Ok "MIT"
  /\ clean_affiliation "Professor at University at Albany" = Ok "University"
  /\ clean_affiliation "PROFESSOR AT MIT" = Raise IndexError.
Proof.
  split_and!.
  - apply (proj1 (affiliation_at_rule "Visiting Scholar at MIT" eq_refl)
             "Visiting Scholar" "MIT").
    reflexivity.
  - apply (proj1 (affiliation_at_rule "Professor at University at Albany" eq_refl)
             "Professor" "University at Albany").
    reflexivity.
  - apply (proj2 (affiliation_at_rule "PROFESSOR AT MIT" eq_refl)); reflexivity.
Defined.

(** X13: on an affiliation with a title marker, without [" at "] in any
    case and with an [@], the cleaner returns the text between the first
    ["@ "] and the next one, or the end; where no [@] is followed by a
    space it raises [IndexError]. *)
Theorem affiliation_at_sign_rule (affiliation : string) :
  has_title affiliation = true ->
  Str.contains " at " (Str.lower affiliation) = false ->
  Str.contains "@" affiliation = true ->
  (forall x y, Str.cut "@ " affiliation = Some (x, y) ->
     clean_affiliation affiliation
     = Ok (match Str.cut "@ " y with Some (m, _) => m | None => y end))
  /\ (Str.cut "@ " affiliation = None ->
      clean_affiliation affiliation = Raise IndexError).
Proof.
  intros Ht Hat Hsign.
  rewrite (AffiliationMore.clean_affiliation_title _ Ht), Hat, Hsign. split.
  - intros x y E. by eapply AffiliationMore.split_second_Some.
  - intros E. by apply AffiliationMore.split_second_None.
Qed.

Lemma affiliation_at_sign_rule_witness :
  clean_affiliation "Research Fellow @ MIT" = Ok "MIT"
  /\ clean_affiliation "PhD student @MIT" = Raise IndexError.
Proof.
  split.
  - apply (proj1 (affiliation_at_sign_rule "Research Fellow @ MIT"
                    eq_refl eq_refl eq_refl) "Research Fellow " "MIT").
    reflexivity.
  - apply (proj2 (affiliation_at_sign_rule "PhD student @MIT"
                    eq_refl eq_refl eq_refl)).
    reflexivity.
Defined.

(** X14: the cleaner raises only [IndexError], only on an affiliation
    with a title marker, and only from the [" at "] rule (no [" at "] in
    the case of the text) or the [@] rule (no ["@ "]); the comma rule and
    the affiliations without a title marker never raise. *)
Theorem affiliation_cleaner_raises_only_index_error (affiliation : string) (e : exn) :
  clean_affiliation affiliation = Raise e ->
  e = IndexError
  /\ has_title affiliation = true
  /\ ((Str.contains " at " (Str.lower affiliation) = true
       /\ Str.cut " at " affiliation = None)
      \/ (Str.contains " at " (Str.lower affiliation) = false
          /\ Str.contains "@" affiliation = true
          /\ Str.cut "@ " affiliation = None)).
Proof.
  intros H. destruct (has_title affiliation) eqn:Ht.
  - rewrite (AffiliationMore.clean_affiliation_title _ Ht) in H.
    destruct (Str.contains " at " (Str.lower affiliation)) eqn:Hat; lazy iota in H.
    + destruct (Str.cut " at " affiliation) as [[x y]|] eqn:E.
      * by rewrite (AffiliationMore.split_second_Some " at " _ _ _ ltac:(done) E) in H.
      * rewrite (AffiliationMore.split_second_None _ _ E) in H.
        inversion H. split_and!; [done..|]. by left.
    + destruct (Str.contains "@" affiliation) eqn:Hsign; lazy iota in H.
      * destruct (Str.cut "@ " affiliation) as [[x y]|] eqn:E.
        -- by rewrite (AffiliationMore.split_second_Some "@ " _ _ _ ltac:(done) E) in H.
        -- rewrite (AffiliationMore.split_second_None _ _ E) in H.
           inversion H. split_and!; [done..|]. by right.
      * by destruct (Str.split ", " affiliation) as [|p0 [|p1 [|p2 ps]]].
  - unfold clean_affiliation in H. rewrite Ht in H. by destruct (negb _).
Qed.

Lemma affiliation_cleaner_raises_only_index_error_witness :
  has_title "Lecturer @Example" = true
  /\ Str.cut "@ " "Lecturer @Example" = None.
Proof.
  destruct (affiliation_cleaner_raises_only_index_error "Lecturer @Example" IndexError)
    as (_ & Ht & [[Hat _]|(_ & _ & Hcut)]); [reflexivity| |done].
  discriminate Hat.
Defined.

(** X15: what the cleaner returns is a part of the text it was given:
    the affiliation is some text, the result, and some text. *)
Theorem affiliation_cleaner_returns_part_of_input (affiliation out : string) :
  clean_affiliation affiliation = Ok out ->
  exists pre post, affiliation = pre +:+ out +:+ post.
Proof.
  intros H. destruct (has_title affiliation) eqn:Ht.
  - rewrite (AffiliationMore.clean_affiliation_title _ Ht) in H.
    destruct (Str.contains " at " (Str.lower affiliation)); lazy iota in H;
      [by eapply (AffiliationMore.split_second_part " at ")|].
    destruct (Str.contains "@" affiliation); lazy iota in H;
      [by eapply (AffiliationMore.split_second_part "@ ")|].
    pose proof (StrMore.join_split ", " affiliation ltac:(done)) as Hjoin.
    destruct (Str.split ", " affiliation) as [|p0 [|p1 ps]].
    + inversion H; subst out. exists "", "". by rewrite <- Hjoin.
    + inversion H; subst out. exists affiliation, "".
      by rewrite StrFacts.sapp_nil_r.
    + rewrite NameMore.join_cons_cons in Hjoin.
      exists (p0 +:+ ", "), "".
      rewrite StrFacts.sapp_nil_r, StrFacts.sapp_assoc, <- Hjoin.
      destruct ps; inversion H; by subst out.
  - unfold clean_affiliation in H. rewrite Ht in H.
    assert (out = affiliation) as -> by (destruct (negb _); by inversion H).
    exists "", "". by rewrite StrFacts.sapp_nil_r.
Qed.

Lemma affiliation_cleaner_returns_part_of_input_witness :
  exists pre post,
    "PhD student, Dept of X, Example University"
    = pre +:+ "Dept of X, Example University" +:+ post.
Proof.
  apply (affiliation_cleaner_returns_part_of_input
           "PhD student, Dept of X, Example University").
  reflexivity.
Defined.

(** X16: the cleaning of a list of affiliations is all or nothing: it
    returns one cleaned affiliation for each one given, in order, unless
    one of them makes the cleaner raise, and then the whole list is lost
    to [IndexError]. *)
Theorem affiliation_cleanup_all_or_nothing (affiliations : list string) :
  (exists cleaned,
     _nsf_affiliation_cleanup affiliations = Ok cleaned
     /\ length cleaned = length affiliations
     /\ Forall2 (fun a c => clean_affiliation a = Ok c) affiliations cleaned)
  \/ (_nsf_affiliation_cleanup affiliations = Raise IndexError
      /\ Exists (fun a => clean_affiliation a = Raise IndexError) affiliations).
Proof.
  unfold _nsf_affiliation_cleanup.
  induction affiliations as [|a affiliations IH]; cbn [mapM].
  - left. exists []. by repeat split.
  - destruct (clean_affiliation a) as [c|e] eqn:Ea.
    + cbn [mbind result_bind].
      destruct IH as [(cleaned & -> & Hlen & Hall)|[-> Hex]].
      * left. exists (c :: cleaned). cbn [mbind result_bind].
        split_and!; [done|simpl; congruence|by constructor].
      * right. split; [done|]. by right.
    + pose proof (AffiliationMore.clean_affiliation_raises a e Ea) as ->.
      right. split; [done|]. by left.
Qed.

Lemma affiliation_cleanup_all_or_nothing_witness :
  _nsf_affiliation_cleanup ["Professor, MIT"; "PhD student @MIT"; "Example University"]
  = Raise IndexError.
Proof.
  destruct (affiliation_cleanup_all_or_nothing
              ["Professor, MIT"; "PhD student @MIT"; "Example University"])
    as [(cleaned & H & _)|[H _]]; [discriminate H|exact H].
Defined.

(** ** More on the year filter *)

Section YearFilterMore.

Variable int_of_str : string -> option Z.

Local Abbreviation py_int := (py_int int_of_str).
Local Abbreviation year_ok := (year_ok int_of_str).
Local Abbreviation filter_by_year := (filter_by_year int_of_str).

Lemma year_ok_raises current_year c paper e :
  year_ok current_year c paper = Raise e -> e = ValueError.
Proof.
  unfold Scholar.year_ok. destruct (bib paper) as [b|]; [|done].
  destruct (pub_year b) as [[z|s]|]; cbn; try done.
  by destruct (int_of_str s); intros [=].
Qed.

Lemma filterM_year_ok_elem current_year c papers kept paper :
  filterM (year_ok current_year c) papers = Ok kept -> paper ∈ papers ->
  exists keep, year_ok current_year c paper = Ok keep.
Proof.
  revert kept. induction papers as [|p papers IH]; intros kept H Hin;
    [by apply elem_of_nil in Hin|].
  cbn [filterM] in H. destruct (year_ok current_year c p) as [keep|] eqn:Ep; [|done].
  cbn [mbind result_bind] in H.
  destruct (filterM (year_ok current_year c) papers) as [kept'|]; [|done].
  apply elem_of_cons in Hin as [->|Hin]; eauto.
Qed.

Lemma filterM_year_ok_raises current_year c papers e :
  filterM (year_ok current_year c) papers = Raise e -> e = ValueError.
Proof.
  induction papers as [|p papers IH]; intros H; [done|].
  cbn [filterM] in H. destruct (year_ok current_year c p) as [keep|e'] eqn:Ep.
  - cbn [mbind result_bind] in H.
    destruct (filterM (year_ok current_year c) papers) as [kept'|e'']; [done|].
    inversion H; subst. by apply IH.
  - inversion H; subst. by eapply year_ok_raises.
Qed.

(** X17: with a cutoff other than 0, one publication whose year is a
    text that [int] cannot read makes the filter raise [ValueError],
    wherever it stands in the list and whatever the other years are. *)
Theorem year_filter_raises_on_unreadable_year (current_year c : Z)
    (papers : list publication) (paper : publication) (b : bib_entry) (s : string) :
  c <> 0%Z -> paper ∈ papers ->
  bib paper = Some b -> pub_year b = Some (PyStr s) -> int_of_str s = None ->
  filter_by_year current_year (Some c) papers = Raise ValueError.
Proof.
  intros Hc Hin Hb Hy Hs. unfold Scholar.filter_by_year.
  destruct (Z.eqb_spec c 0); [done|].
  destruct (filterM (year_ok current_year c) papers) as [kept|e] eqn:E.
  - destruct (filterM_year_ok_elem _ _ _ _ _ E Hin) as [keep Hkeep].
    unfold Scholar.year_ok in Hkeep. rewrite Hb, Hy in Hkeep. cbn in Hkeep.
    by rewrite Hs in Hkeep.
  - by rewrite (filterM_year_ok_raises _ _ _ _ E).
Qed.

End YearFilterMore.

Lemma year_filter_raises_on_unreadable_year_witness :
  filter_by_year Demo.int_of_str 2026 (Some 2022%Z)
    [Publication (Some (BibEntry (Some (PyInt 2025)) (Some "Jane Doe")));
     Publication (Some (BibEntry (Some (PyStr "in press")) (Some "John Smith")))]
  = Raise ValueError.
Proof.
  apply (year_filter_raises_on_unreadable_year Demo.int_of_str 2026 2022 _
           (Publication (Some (BibEntry (Some (PyStr "in press")) (Some "John Smith"))))
           (BibEntry (Some (PyStr "in press")) (Some "John Smith")) "in press");
    [lia|set_solver|reflexivity..].
Defined.

(** ** More on the lookups and the extractor *)

Module ExtractorPure.

Lemma remove_self_cases my_name unique kept :
  remove_self my_name unique = Ok kept ->
  kept = unique \/ exists l1 n l2, unique = l1 ++ n :: l2 /\ kept = l1 ++ l2.
Proof.
  unfold remove_self. destruct my_name as [n|]; [|intros [= ->]; by left].
  destruct (negb (n =? "")%string && bool_decide (n ∈ unique));
    [|intros [= ->]; by left].
  intros (l1 & l2 & -> & ->)%DedupFacts.list_remove_Ok. right. eauto.
Qed.

Lemma remove_self_elem my_name unique kept x :
  remove_self my_name unique = Ok kept -> x ∈ kept -> x ∈ unique.
Proof.
  intros [->|(l1 & n & l2 & -> & ->)]%remove_self_cases; [done|]. set_solver.
Qed.

Lemma remove_self_NoDup_keys my_name unique kept :
  remove_self my_name unique = Ok kept ->
  NoDup (person_key <$> unique) -> NoDup (person_key <$> kept).
Proof.
  intros [->|(l1 & n & l2 & -> & ->)]%remove_self_cases; [done|].
  rewrite !fmap_app, fmap_cons, !NoDup_app, NoDup_cons.
  intros (H1 & Hdisj & _ & H2). split_and!; [done| |done].
  intros k Hk Hk2. apply (Hdisj k Hk). set_solver.
Qed.

(** A name without [", "] is not among the de-duplicated names. *)
Lemma remove_self_no_comma n cleaned unique :
  Str.contains ", " n = false -> dedup cleaned = Ok unique ->
  remove_self (Some n) unique = Ok unique.
Proof.
  intros Hn%StrFacts.contains_false Hd. unfold dedup in Hd.
  destruct (dedup_loop ([], ∅) cleaned) as [st|] eqn:E; [|done].
  inversion Hd; subst unique. clear Hd.
  destruct (DedupFacts.dedup_loop_inv _ _ _ DedupFacts.dedup_inv_init E)
    as [Hkeys _].
  unfold remove_self. rewrite bool_decide_eq_false_2; [by rewrite andb_false_r|].
  intros ([l f] & Hk & _)%Hkeys.
  destruct (DedupMore.person_key_shape _ _ _ Hk) as (rest & -> & _).
  destruct (StrFacts.cut_app_is_Some ", " l rest) as [? Hs]. congruence.
Qed.

Lemma mapM_elem {A B} (f : A -> result B) l ys y :
  mapM f l = Ok ys -> y ∈ ys -> exists x, x ∈ l /\ f x = Ok y.
Proof.
  revert ys. induction l as [|x l IH]; intros ys H Hy; cbn [mapM] in H.
  - inversion H; subst. by apply elem_of_nil in Hy.
  - destruct (f x) as [y0|] eqn:E; [|done]. cbn [mbind result_bind] in H.
    destruct (mapM f l) as [ys0|]; [|done]. inversion H; subst.
    apply elem_of_cons in Hy as [->|Hy]; [exists x; set_solver|].
    destruct (IH _ eq_refl Hy) as (x' & ? & ?). exists x'. set_solver.
Qed.

Lemma filterM_elem {A} (f : A -> result bool) l kept x :
  filterM f l = Ok kept -> x ∈ kept -> x ∈ l.
Proof.
  revert kept. induction l as [|a l IH]; intros kept H Hx; cbn [filterM] in H.
  - inversion H; subst. by apply elem_of_nil in Hx.
  - destruct (f a) as [keep|]; [|done]. cbn [mbind result_bind] in H.
    destruct (filterM f l) as [kept0|]; [|done]. inversion H; subst.
    destruct keep; [apply elem_of_cons in Hx as [->|Hx]|]; set_solver.
Qed.

Lemma dedup_elem cleaned unique x : dedup cleaned = Ok unique -> x ∈ unique -> x ∈ cleaned.
Proof.
  unfold dedup. intros H.
  destruct (dedup_loop ([], ∅) cleaned) as [st|] eqn:E; [|done].
  inversion H; subst.
  destruct (DedupCover.dedup_loop_cover _ _ _ _ DedupFacts.dedup_inv_init
              DedupCover.dedup_cover_init E) as [_ (Hsub & _)].
  apply Hsub.
Qed.

End ExtractorPure.

Section ExtractorMore.

Variable World : Type.
Variable search_author : string -> World -> (service_exn + generator World) * World.
Variable fill : publication -> World -> (service_exn + publication) * World.
Variable today_year : World -> Z.
Variable int_of_str : string -> option Z.
Variable set_order : list string -> list string.

Local Abbreviation get_scholar_info := (get_scholar_info World search_author).
Local Abbreviation paper_coauthors := (paper_coauthors World fill).
Local Abbreviation filter_by_year := (filter_by_year int_of_str).
Local Abbreviation extractor :=
  (_get_coauthors_from_pubs World search_author fill today_year int_of_str set_order).

(** Every stage of a run of the extractor that returns. *)
Lemma extractor_all_stages papers year_cutoff my_name w names affiliations w' :
  extractor papers year_cutoff my_name w = (Ok (names, affiliations), w') ->
  exists papers_subset per_paper w1 cleaned unique kept raws,
    filter_by_year (today_year w) year_cutoff papers = Ok papers_subset
    /\ mapMW World paper_coauthors papers_subset w = (Ok per_paper, w1)
    /\ _nsf_name_cleanup (set_order (concat per_paper)) = Ok cleaned
    /\ dedup cleaned = Ok unique
    /\ remove_self my_name unique = Ok kept
    /\ names = sort_names kept
    /\ mapMW World get_scholar_info names w1 = (Ok raws, w')
    /\ _nsf_affiliation_cleanup raws = Ok affiliations.
Proof.
  unfold _get_coauthors_from_pubs. intros H.
  apply bindW_Ok in H as (current_year & w1 & Hy & H). inversion Hy; subst.
  apply bindW_Ok in H as (papers_subset & w2 & [Hf ->]%lift_Ok & H).
  apply bindW_Ok in H as (per_paper & w3 & Hp & H).
  apply bindW_Ok in H as (cleaned & w4 & [Hn ->]%lift_Ok & H).
  apply bindW_Ok in H as (unique & w5 & [Hd ->]%lift_Ok & H).
  apply bindW_Ok in H as (kept & w6 & [Hr ->]%lift_Ok & H).
  apply bindW_Ok in H as (raws & w7 & Hl & H).
  apply bindW_Ok in H as (cleaned_affs & w8 & [Hc ->]%lift_Ok & H).
  inversion H; subst. by exists papers_subset, per_paper, w3, cleaned, unique, kept, raws.
Qed.

(** X18: the names the extractor returns all have a key and no two of
    them have the same key; in particular no name is returned twice. *)
Theorem extractor_names_have_distinct_keys papers year_cutoff my_name w
    names affiliations w' :
  extractor papers year_cutoff my_name w = (Ok (names, affiliations), w') ->
  NoDup names
  /\ (forall x, x ∈ names -> exists k, person_key x = Ok k)
  /\ (forall x y, x ∈ names -> y ∈ names -> person_key x = person_key y -> x = y).
Proof.
  intros (ps & pp & w1 & cleaned & unique & kept & raws
          & _ & _ & _ & Hd & Hr & -> & _)%extractor_all_stages.
  unfold dedup in Hd.
  destruct (dedup_loop ([], ∅) cleaned) as [st|] eqn:E; [|done].
  inversion Hd; subst unique. clear Hd.
  destruct (DedupFacts.dedup_loop_inv _ _ _ DedupFacts.dedup_inv_init E)
    as [Hkeys Hnodup].
  pose proof (ExtractorPure.remove_self_NoDup_keys _ _ _ Hr Hnodup) as Hkept.
  assert (NoDup (person_key <$> sort_names kept)) as Hsorted.
  { unfold sort_names. by rewrite merge_sort_Permutation. }
  split_and!.
  - by eapply NoDup_fmap_1.
  - intros x Hx. unfold sort_names in Hx. rewrite merge_sort_Permutation in Hx.
    destruct (Hkeys x (ExtractorPure.remove_self_elem _ _ _ _ Hr Hx)) as (k & Hk & _). eauto.
  - intros x y. by apply DedupCover.NoDup_fmap_eq.
Qed.

Lemma mapMW_app_raise {A B} (f : A -> M World B) before x after w ys w1 e w2 :
  mapMW World f before w = (Ok ys, w1) -> f x w1 = (Raise e, w2) ->
  mapMW World f (before ++ x :: after) w = (Raise e, w2).
Proof.
  revert w ys. induction before as [|b before IH]; intros w ys Hb Hx.
  - inversion Hb; subst. cbn [app mapMW]. unfold bindW. by rewrite Hx.
  - cbn [app mapMW] in *. unfold bindW at 1. unfold bindW at 1 in Hb.
    destruct (f b w) as [[y|e'] w0]; [|done].
    unfold bindW at 1 in Hb. unfold bindW at 1.
    destruct (mapMW World f before w0) as [[ys0|e'] w0'] eqn:E0; [|done].
    unfold ret in Hb. inversion Hb; subst. by rewrite (IH _ _ E0 Hx).
Qed.

(** X19: a failure of [scholarly.fill] on a publication that passed the
    year filter is not absorbed: the extractor raises that exception, and
    no lookup of an affiliation is made. *)
Theorem extractor_aborts_when_fill_fails papers year_cutoff my_name w
    before paper after lists w1 e w2 :
  filter_by_year (today_year w) year_cutoff papers = Ok (before ++ paper :: after) ->
  mapMW World paper_coauthors before w = (Ok lists, w1) ->
  fill paper w1 = (inl e, w2) ->
  extractor papers year_cutoff my_name w = (Raise (Upstream e), w2).
Proof.
  intros Hf Hb He. unfold _get_coauthors_from_pubs.
  unfold bindW at 1. unfold bindW at 1. unfold lift at 1. rewrite Hf.
  unfold bindW at 1.
  rewrite (mapMW_app_raise _ _ _ _ _ _ _ (Upstream e) w2 Hb); [done|].
  unfold Scholar.paper_coauthors, bindW, call. by rewrite He.
Qed.

(** X20: when the search finds an author, the lookup returns the
    author's affiliation if the record has one and the empty string if it
    has none: the text "No affiliation listed" is never put in its
    place. *)
Theorem get_scholar_info_found name w search_query w1 author w2 :
  search_author name w = (inr search_query, w1) ->
  search_query w1 = (inr author, w2) ->
  get_scholar_info name w = (Ok (default "" (author !! "affiliation")), w2).
Proof.
  intros Hs Hq. unfold Scholar.get_scholar_info, scholar_lookup. rewrite Hs, Hq.
  by destruct (author !! "affiliation").
Qed.

(** X21: without publications the extractor returns two empty lists
    and leaves the world as it was: no call to the Scholar client is
    made. *)
Theorem extractor_without_publications year_cutoff my_name w :
  set_order [] = [] ->
  extractor [] year_cutoff my_name w = (Ok ([], []), w).
Proof.
  intros Hset. unfold _get_coauthors_from_pubs, bindW, lift.
  assert (filter_by_year (today_year w) year_cutoff [] = Ok []) as ->.
  { destruct year_cutoff as [c|]; [|done]. unfold Scholar.filter_by_year.
    by destruct (c =? 0)%Z. }
  cbn [mapMW ret concat]. rewrite Hset. cbn.
  assert (remove_self my_name [] = Ok []) as ->; [|done].
  destruct my_name as [n|]; [|done]. unfold remove_self.
  rewrite bool_decide_eq_false_2 by set_solver. by rewrite andb_false_r.
Qed.

End ExtractorMore.

Lemma extractor_names_have_distinct_keys_witness :
  NoDup ["Doe, Jane"; "Johnson, Ann M"; "Roe, Richard"; "Smith, John A"].
Proof.
  apply (extractor_names_have_distinct_keys Demo.World Demo.search_author Demo.fill
           Demo.today_year Demo.int_of_str Demo.set_order
           Demo.papers (Some 2022%Z) None 0
           ["Doe, Jane"; "Johnson, Ann M"; "Roe, Richard"; "Smith, John A"]
           [""; "Example University"; "An error occurred: timed out";
            "Example University"] 9).
  vm_compute. reflexivity.
Defined.

Lemma get_scholar_info_found_witness :
  get_scholar_info Demo.World Demo.search_author "Smith, John A" 0
  = (Ok "Professor, Example University", 2).
Proof.
  etrans.
  - apply (get_scholar_info_found Demo.World Demo.search_author "Smith, John A" 0
             (fun w' => (inr {[ "affiliation" := "Professor, Example University" ]},
                         S w'))
             1 {[ "affiliation" := "Professor, Example University" ]} 2);
      reflexivity.
  - vm_compute. reflexivity.
Defined.

Lemma extractor_without_publications_witness :
  Demo.extract [] (Some 2022%Z) (Some "Smith, John A") 0 = (Ok ([], []), 0).
Proof.
  apply (extractor_without_publications Demo.World Demo.search_author Demo.fill
           Demo.today_year Demo.int_of_str Demo.set_order).
  reflexivity.
Defined.

Lemma extractor_aborts_when_fill_fails_witness :
  DemoLimited.extract Demo.papers None (Some "Smith, John A") 0
  = (Raise (Upstream (ServiceError "rate limited")), 2).
Proof.
  apply (extractor_aborts_when_fill_fails Demo.World Demo.search_author
           DemoLimited.fill Demo.today_year Demo.int_of_str Demo.set_order
           Demo.papers None (Some "Smith, John A") 0
           (take 1 Demo.papers)
           (Publication (Some (BibEntry None (Some "John Smith and M Ann Johnson"))))
           (drop 2 Demo.papers)
           [["John Smith"; "Jane Doe"; "John A Smith"; "Richard Roe"]] 1
           (ServiceError "rate limited") 2); reflexivity.
Defined.

Section ExtractorTrace.

Variable World : Type.
Variable search_author : string -> World -> (service_exn + generator World) * World.
Variable fill : publication -> World -> (service_exn + publication) * World.
Variable today_year : World -> Z.
Variable int_of_str : string -> option Z.
Variable set_order : list string -> list string.

Local Abbreviation paper_coauthors := (paper_coauthors World fill).
Local Abbreviation filter_by_year := (filter_by_year int_of_str).
Local Abbreviation extractor :=
  (_get_coauthors_from_pubs World search_author fill today_year int_of_str set_order).

Lemma bindW_ext_Ok {A B} (m : M World A) (k1 k2 : A -> M World B) w :
  (forall a w1, m w = (Ok a, w1) -> k1 a w1 = k2 a w1) ->
  bindW World m k1 w = bindW World m k2 w.
Proof. intros H. unfold bindW. destruct (m w) as [[a|e] w1]; [by apply H|done]. Qed.

(** X22: a profile name that holds no [", "], as a name written
    "First Last" does, is never equal to a canonical name: the
    extractor then returns what it returns without a profile name, the
    profile's owner included. *)
Theorem extractor_ignores_name_without_comma papers year_cutoff (my_name : string) w :
  Str.contains ", " my_name = false ->
  extractor papers year_cutoff (Some my_name) w = extractor papers year_cutoff None w.
Proof.
  intros Hn. unfold _get_coauthors_from_pubs.
  apply bindW_ext_Ok. intros current_year w1 _.
  apply bindW_ext_Ok. intros papers_subset w2 _.
  apply bindW_ext_Ok. intros per_paper w3 _.
  apply bindW_ext_Ok. intros cleaned w4 _.
  apply bindW_ext_Ok. intros unique w5 [Hd _]%lift_Ok.
  by rewrite (ExtractorPure.remove_self_no_comma _ _ _ Hn Hd).
Qed.

Lemma mapMW_elem {A B} (f : A -> M World B) l w ys w' y :
  mapMW World f l w = (Ok ys, w') -> y ∈ ys ->
  exists x w0 w0', x ∈ l /\ f x w0 = (Ok y, w0').
Proof.
  revert w ys. induction l as [|x l IH]; intros w ys H Hy; cbn [mapMW] in H.
  - inversion H; subst. by apply elem_of_nil in Hy.
  - apply bindW_Ok in H as (y0 & w1 & Hx & H).
    apply bindW_Ok in H as (ys0 & w2 & Hl & H). inversion H; subst.
    apply elem_of_cons in Hy as [->|Hy]; [exists x, w, w1; set_solver|].
    destruct (IH _ _ Hl Hy) as (x' & w0 & w0' & ? & ?). exists x', w0, w0'. set_solver.
Qed.

Lemma filter_by_year_elem current_year year_cutoff papers kept x :
  filter_by_year current_year year_cutoff papers = Ok kept -> x ∈ kept -> x ∈ papers.
Proof.
  unfold Scholar.filter_by_year. destruct year_cutoff as [c|]; [|by intros [= ->]].
  destruct (c =? 0)%Z; [by intros [= ->]|]. apply ExtractorPure.filterM_elem.
Qed.

(** X23: the extractor invents no name: every name it returns is the
    canonical name of an author of a publication given to it, read from
    the author list that [scholarly.fill] returned for that publication
    and split on [" and "]. *)
Theorem extractor_names_come_from_publications papers year_cutoff my_name w
    names affiliations w' :
  (forall l x, x ∈ set_order l -> x ∈ l) ->
  extractor papers year_cutoff my_name w = (Ok (names, affiliations), w') ->
  forall name, name ∈ names ->
  exists paper raw,
    paper ∈ papers /\ nsf_name raw = Ok name
    /\ exists w0 paper_full w0' b a,
         fill paper w0 = (inr paper_full, w0')
         /\ bib paper_full = Some b /\ author b = Some a
         /\ raw ∈ Str.split " and " a.
Proof.
  intros Hset (ps & pp & w1 & cleaned & unique & kept & raws
               & Hf & Hp & Hn & Hd & Hr & -> & _)%extractor_all_stages name Hname.
  unfold sort_names in Hname. rewrite merge_sort_Permutation in Hname.
  eapply ExtractorPure.remove_self_elem in Hname; [|exact Hr].
  eapply ExtractorPure.dedup_elem in Hname; [|exact Hd].
  destruct (ExtractorPure.mapM_elem _ _ _ _ Hn Hname) as (raw & Hraw%Hset & Hnsf).
  apply list_elem_of_In, in_concat in Hraw as (authors & Hauthors & Hraw).
  apply list_elem_of_In in Hauthors, Hraw.
  destruct (mapMW_elem _ _ _ _ _ _ Hp Hauthors) as (paper & w0 & w0' & Hpaper & Hpc).
  exists paper, raw. split_and!; [by eapply filter_by_year_elem|done|].
  unfold Scholar.paper_coauthors in Hpc.
  apply bindW_Ok in Hpc as (paper_full & w2 & Hfill & Hpc).
  unfold call in Hfill. destruct (fill paper w0) as [[e|pf] w3] eqn:Efill; [done|].
  inversion Hfill; subst. apply lift_Ok in Hpc as [Hpc ->].
  destruct (bib paper_full) as [b|] eqn:Eb; [|done].
  destruct (author b) as [a|] eqn:Ea; [|done]. inversion Hpc; subst.
  do 5 eexists. split_and!; [exact Efill|exact Eb|exact Ea|done].
Qed.

End ExtractorTrace.

Lemma extractor_ignores_name_without_comma_witness :
  Demo.extract Demo.papers (Some 2022%Z) (Some "John A Smith") 0
  = Demo.extract Demo.papers (Some 2022%Z) None 0.
Proof.
  apply (extractor_ignores_name_without_comma Demo.World Demo.search_author Demo.fill
           Demo.today_year Demo.int_of_str Demo.set_order).
  reflexivity.
Defined.

Lemma extractor_names_come_from_publications_witness :
  exists paper raw,
    paper ∈ Demo.papers /\ nsf_name raw = Ok "Johnson, Ann M"
    /\ exists w0 paper_full w0' b a,
         Demo.fill paper w0 = (inr paper_full, w0')
         /\ bib paper_full = Some b /\ author b = Some a
         /\ raw ∈ Str.split " and " a.
Proof.
  apply (extractor_names_come_from_publications Demo.World Demo.search_author
           Demo.fill Demo.today_year Demo.int_of_str Demo.set_order
           Demo.papers (Some 2022%Z) None 0
           ["Doe, Jane"; "Johnson, Ann M"; "Roe, Richard"; "Smith, John A"]
           [""; "Example University"; "An error occurred: timed out";
            "Example University"] 9).
  - intros l x. unfold Demo.set_order. by rewrite elem_of_remove_dups.
  - vm_compute. reflexivity.
  - set_solver.
Defined.

(** ** More on the writer *)

Module WriterMore.
Import StrFacts WriterFacts.

Lemma dump_loop_app l affs f i1 i2 st :
  dump_loop l affs f (i1 ++ i2) st =
  match dump_loop l affs f i1 st with
  | (Ok _, st') => dump_loop l affs f i2 st'
  | (Raise e, st') => (Raise e, st')
  end.
Proof.
  revert st. induction i1 as [|i i1 IH]; intros st; [done|].
  cbn [app dump_loop]. destruct (dump_step l affs f i st) as [[[]|e] st1]; [|done].
  apply IH.
Qed.

(** The loop over a stretch [mid] of the list, the names before it
    quoted already. *)
Lemma dump_loop_stretch l f mid :
  forall affs_mid pre affs_pre tail affs_tail st text,
  length affs_pre = length pre -> length affs_mid = length mid ->
  heap st !! l = Some ((quoted <$> pre) ++ mid ++ tail) ->
  files st !! f = Some text ->
  exists st',
    dump_loop l (affs_pre ++ affs_mid ++ affs_tail) f
      (seq (length pre) (length mid)) st = (Ok tt, st')
    /\ heap st' !! l = Some ((quoted <$> (pre ++ mid)) ++ tail)
    /\ files st' !! f = Some (text +:+ csv_text mid affs_mid).
Proof.
  induction mid as [|name mid IH];
    intros [|affiliation affs_mid] pre affs_pre tail affs_tail st text
           Hpre Hmid Hheap Hfile; try done.
  - exists st. cbn [length seq dump_loop csv_text].
    rewrite sapp_nil_r. by rewrite !app_nil_r in *.
  - cbn [length seq dump_loop]. rewrite <- !app_comm_cons.
    rewrite (dump_step_aligned _ _ _ _ _ name (mid ++ tail) _ _ text) by done.
    destruct (IH affs_mid (pre ++ [name]) (affs_pre ++ [affiliation]) tail affs_tail
                (PyState (<[l := (quoted <$> pre) ++ quoted name :: mid ++ tail]>
                            (heap st))
                         (<[f := text +:+ record_line name affiliation]> (files st))
             (unwritable st))
                (text +:+ record_line name affiliation))
      as (st' & E & Hh & Hf).
    + rewrite !length_app. simpl. lia.
    + simpl in Hmid. lia.
    + cbn [heap]. rewrite lookup_insert_eq, fmap_app, <- app_assoc. done.
    + cbn [files]. by rewrite lookup_insert_eq.
    + exists st'. rewrite length_app, Nat.add_1_r, <- !app_assoc in E. cbn [app] in E.
      split_and!; [done| |].
      * by rewrite <- app_assoc in Hh.
      * cbn [csv_text]. by rewrite <- sapp_assoc.
Qed.

Lemma csv_text_app_l names extra affiliations :
  length names = length affiliations ->
  csv_text (names ++ extra) affiliations = csv_text names affiliations.
Proof.
  revert affiliations. induction names as [|n names IH]; intros [|a affs] Hlen;
    try done.
  - by destruct extra.
  - cbn [app csv_text]. rewrite IH; [done|]. simpl in Hlen. lia.
Qed.

Lemma csv_text_app_r names affiliations extra :
  length names = length affiliations ->
  csv_text names (affiliations ++ extra) = csv_text names affiliations.
Proof.
  revert affiliations. induction names as [|n names IH]; intros [|a affs] Hlen;
    try done.
  cbn [app csv_text]. rewrite IH; [done|]. simpl in Hlen. lia.
Qed.

Lemma dump_step_frame l affs f i st r st' :
  dump_step l affs f i st = (r, st') ->
  (forall l', l' <> l -> heap st' !! l' = heap st !! l')
  /\ (forall f', f' <> f -> files st' !! f' = files st !! f').
Proof.
  unfold dump_step. intros H.
  destruct (heap st !! l) as [co|]; [|by inversion H; subst].
  destruct (co !! i) as [name|]; [|by inversion H; subst].
  destruct (affs !! i) as [a|]; inversion H; subst; cbn [heap files]; split;
    intros x Hx; by rewrite ?lookup_insert_ne.
Qed.

Lemma dump_loop_frame l affs f indices : forall st r st',
  dump_loop l affs f indices st = (r, st') ->
  (forall l', l' <> l -> heap st' !! l' = heap st !! l')
  /\ (forall f', f' <> f -> files st' !! f' = files st !! f').
Proof.
  induction indices as [|i indices IH]; intros st r st' H; cbn [dump_loop] in H.
  - by inversion H; subst.
  - destruct (dump_step l affs f i st) as [[[]|e] st1] eqn:Es.
    + destruct (dump_step_frame _ _ _ _ _ _ _ Es) as [Hh Hf].
      destruct (IH _ _ _ H) as [Hh' Hf']. split; intros x Hx.
      * by rewrite Hh', Hh.
      * by rewrite Hf', Hf.
    + inversion H; subst. by eapply dump_step_frame.
Qed.

Lemma dump_to_csv_frame l affs f st r st' :
  _dump_to_csv l affs f st = (r, st') ->
  (forall l', l' <> l -> heap st' !! l' = heap st !! l')
  /\ (forall f', f' <> f -> files st' !! f' = files st !! f').
Proof.
  unfold _dump_to_csv. destruct (open_for_writing st f); [by intros [= <- <-]|].
  destruct (heap st !! l) as [co|]; [|by intros [= <- <-]].
  intros [Hh Hf]%dump_loop_frame. cbn [heap files] in *. split; [done|].
  intros f' Hne. by rewrite Hf, lookup_insert_ne.
Qed.

End WriterMore.

(** X24: the writer on lists of any lengths.  When the file does not
    open, the exception of the open is raised and nothing is quoted or
    written.  When it opens, the writer returns if there are at least as
    many affiliations as names and raises [IndexError] if there are
    fewer; either way the file holds the lines of the records that have
    both a name and an affiliation, and the names are quoted in place up
    to and including the first one without an affiliation. *)
Theorem dump_to_csv_any_lengths (l : loc) (names affiliations : list string)
    (filename : string) (st : pystate) :
  heap st !! l = Some names ->
  (forall e, open_for_writing st filename = Some e ->
     _dump_to_csv l affiliations filename st = (Raise e, st))
  /\ (open_for_writing st filename = None ->
      exists st',
        _dump_to_csv l affiliations filename st
        = (if (length names <=? length affiliations)%nat
           then Ok tt else Raise IndexError, st')
        /\ files st' !! filename = Some (csv_text names affiliations)
        /\ heap st' !! l
           = Some ((quoted <$> take (S (length affiliations)) names)
                   ++ drop (S (length affiliations)) names)).
Proof.
  intros Hheap. split; [by intros e He; unfold _dump_to_csv; rewrite He|].
  intros Hopen. unfold _dump_to_csv. rewrite Hopen, Hheap.
  set (st0 := PyState (heap st) (<[filename := ""]> (files st)) (unwritable st)).
  assert (files st0 !! filename = Some "") as Hfile0
    by (cbn [files st0]; by rewrite lookup_insert_eq).
  destruct (Nat.leb_spec (length names) (length affiliations)) as [Hle|Hlt].
  - destruct (WriterMore.dump_loop_stretch l filename names
                (take (length names) affiliations) [] []
                [] (drop (length names) affiliations) st0 "")
      as (st' & E & Hh & Hf); try done.
    + rewrite length_take. lia.
    + by rewrite app_nil_r.
    + cbn [app length] in E. rewrite take_drop in E. exists st'.
      split_and!; [done| |].
      * rewrite Hf, StrFacts.sapp_nil_l. f_equal.
        rewrite <- (WriterMore.csv_text_app_r names
                      (take (length names) affiliations)
                      (drop (length names) affiliations))
          by (rewrite length_take; lia).
        by rewrite take_drop.
      * rewrite Hh, app_nil_l, app_nil_r.
        by rewrite take_ge, drop_ge, app_nil_r by lia.
  - assert (exists pre name rest,
              names = pre ++ name :: rest /\ length pre = length affiliations)
      as (pre & name & rest & Hnames & Hpre).
    { destruct (lookup_lt_is_Some_2 names (length affiliations) Hlt) as [name Hname].
      exists (take (length affiliations) names), name,
             (drop (S (length affiliations)) names).
      split; [by rewrite take_drop_middle|rewrite length_take; lia]. }
    subst names. clear Hlt.
    destruct (WriterMore.dump_loop_stretch l filename pre affiliations [] []
                (name :: rest) [] st0 "")
      as (st1 & E & Hh & Hf); try done.
    cbn [app length] in E, Hh. rewrite app_nil_r in E.
    rewrite StrFacts.sapp_nil_l in Hf.
    rewrite length_app. cbn [length].
    rewrite seq_app, WriterMore.dump_loop_app, E, Nat.add_0_l.
    cbn [seq dump_loop]. unfold dump_step. rewrite Hh.
    rewrite (list_lookup_middle _ _ name) by (by rewrite length_fmap).
    rewrite (lookup_ge_None_2 affiliations) by lia.
    eexists. split_and!; [done| |].
    + cbn [files]. rewrite Hf. f_equal. symmetry.
      by apply WriterMore.csv_text_app_l.
    + cbn [heap]. rewrite lookup_insert_eq. f_equal.
      rewrite insert_app_r_alt by (by rewrite length_fmap).
      rewrite length_fmap, Nat.sub_diag. cbn [insert list_insert].
      rewrite <- Hpre.
      replace (pre ++ name :: rest) with ((pre ++ [name]) ++ rest)
        by (by rewrite <- app_assoc).
      rewrite take_app_length', drop_app_length'
        by (rewrite length_app; simpl; lia).
      by rewrite fmap_app, <- app_assoc.
Qed.

Lemma dump_to_csv_any_lengths_witness :
  let st := PyState {[ 0 := ["Doe, Jane"; "Roe, Richard"; "Smith, John"] ]} ∅
              {[ "no_such_dir/coauthors.csv" ]} in
  _dump_to_csv 0 ["MIT"] "no_such_dir/coauthors.csv" st = (Raise OSError, st)
  /\ exists st',
       _dump_to_csv 0 ["MIT"] "coauthors.csv" st = (Raise IndexError, st')
       /\ files st' !! "coauthors.csv" = Some (record_line "Doe, Jane" "MIT")
       /\ heap st' !! 0
          = Some [quoted "Doe, Jane"; quoted "Roe, Richard"; "Smith, John"].
Proof.
  intros st. split.
  - apply (dump_to_csv_any_lengths 0 ["Doe, Jane"; "Roe, Richard"; "Smith, John"]
             ["MIT"] "no_such_dir/coauthors.csv" st); vm_compute; reflexivity.
  - apply (dump_to_csv_any_lengths 0 ["Doe, Jane"; "Roe, Richard"; "Smith, John"]
             ["MIT"] "coauthors.csv" st); vm_compute; reflexivity.
Defined.

(** X25: whatever the outcome, the writer changes no list object but the
    one it is given and no file but the one it is told to write. *)
Theorem dump_to_csv_touches_nothing_else (l : loc) (affiliations : list string)
    (filename : string) (st : pystate) (r : result unit) (st' : pystate) :
  _dump_to_csv l affiliations filename st = (r, st') ->
  (forall l', l' <> l -> heap st' !! l' = heap st !! l')
  /\ (forall f', f' <> filename -> files st' !! f' = files st !! f').
Proof. apply WriterMore.dump_to_csv_frame. Qed.

Lemma dump_to_csv_touches_nothing_else_witness :
  let st := PyState {[ 0 := ["Doe, Jane"] ; 1 := ["kept"] ]}
                    {[ "notes.txt" := "kept" ]} ∅ in
  let out := _dump_to_csv 0 ["MIT"] "coauthors.csv" st in
  heap out.2 !! 1 = Some ["kept"] /\ files out.2 !! "notes.txt" = Some "kept".
Proof.
  intros st out.
  destruct (dump_to_csv_touches_nothing_else 0 ["MIT"] "coauthors.csv" st out.1 out.2)
    as [Hh Hf]; [apply surjective_pairing|].
  split; [rewrite Hh by done|rewrite Hf by done]; reflexivity.
Defined.

(** X26: the writer is not idempotent: run again, with a file that
    opens, on the list object it has rewritten, it wraps every name in a
    second pair of double quotes, in the list and in the file. *)
Theorem dump_to_csv_twice_quotes_twice (l : loc) (names affiliations : list string)
    (filename : string) (st : pystate) :
  open_for_writing st filename = None ->
  heap st !! l = Some names -> length names = length affiliations ->
  exists st1 st2,
    _dump_to_csv l affiliations filename st = (Ok tt, st1)
    /\ open_for_writing st1 filename = None
    /\ _dump_to_csv l affiliations filename st1 = (Ok tt, st2)
    /\ heap st2 !! l = Some (quoted <$> (quoted <$> names))
    /\ files st2 !! filename = Some (csv_text (quoted <$> names) affiliations).
Proof.
  intros Hopen Hheap Hlen.
  destruct (WriterFacts.dump_to_csv_aligned l names affiliations filename st)
    as (st1 & E1 & Hh1 & _); [done..|].
  assert (open_for_writing st1 filename = None) as Hopen1.
  { rewrite <- Hopen. apply WriterFacts.open_for_writing_unwritable.
    by eapply WriterFacts.dump_to_csv_unwritable. }
  destruct (WriterFacts.dump_to_csv_aligned l (quoted <$> names) affiliations
              filename st1) as (st2 & E2 & Hh2 & Hf2);
    [done|done|by rewrite length_fmap|].
  by exists st1, st2.
Qed.

Lemma dump_to_csv_twice_quotes_twice_witness :
  exists st1 st2,
    _dump_to_csv 0 ["MIT"] "coauthors.csv" (PyState {[ 0 := ["Doe, Jane"] ]} ∅ ∅)
    = (Ok tt, st1)
    /\ open_for_writing st1 "coauthors.csv" = None
    /\ _dump_to_csv 0 ["MIT"] "coauthors.csv" st1 = (Ok tt, st2)
    /\ heap st2 !! 0 = Some [quoted (quoted "Doe, Jane")]
    /\ files st2 !! "coauthors.csv" = Some (record_line (quoted "Doe, Jane") "MIT").
Proof.
  apply (dump_to_csv_twice_quotes_twice 0 ["Doe, Jane"] ["MIT"] "coauthors.csv"
           (PyState {[ 0 := ["Doe, Jane"] ]} ∅ ∅)); vm_compute; reflexivity.
Defined.

(** ** More on [get_coauthors] *)

Section GetCoauthorsMore.

Variable World : Type.
Variable search_author : string -> World -> (service_exn + generator World) * World.
Variable fill : publication -> World -> (service_exn + publication) * World.
Variable _get_scholar_profile : string -> World -> (service_exn + profile) * World.
Variable today_year : World -> Z.
Variable int_of_str : string -> option Z.
Variable set_order : list string -> list string.

Local Abbreviation extractor :=
  (_get_coauthors_from_pubs World search_author fill today_year int_of_str set_order).
Local Abbreviation get_coauthors :=
  (get_coauthors World search_author fill _get_scholar_profile today_year
     int_of_str set_order).

(** X27: with the name of a file that opens, [get_coauthors] leaves in
    that file one line for each co-author the extractor returned, in
    order, and changes no other file; with the name of a file that does
    not open it raises the exception of the open; with no file name, or
    the empty one, it changes no file at all. *)
Theorem get_coauthors_writes_the_records scholar_id years_back st w
    prof w1 names affiliations w2 :
  _get_scholar_profile scholar_id w = (inr prof, w1) ->
  extractor (default [] (profile_publications prof))
    (cutoff_year (today_year w) years_back)
    (Some (default "" (profile_name prof))) w1 = (Ok (names, affiliations), w2) ->
  (forall filename, open_for_writing st filename = None ->
     exists l st',
       get_coauthors scholar_id years_back (Some filename) st w = (Ok (l, st'), w2)
       /\ files st' !! filename = Some (csv_text names affiliations)
       /\ (forall f', f' <> filename -> files st' !! f' = files st !! f'))
  /\ (forall filename e, filename <> "" -> open_for_writing st filename = Some e ->
      get_coauthors scholar_id years_back (Some filename) st w = (Raise e, w2))
  /\ (forall filename, filename = None \/ filename = Some "" ->
      exists l st',
        get_coauthors scholar_id years_back filename st w = (Ok (l, st'), w2)
        /\ files st' = files st).
Proof.
  intros Hprof Hext.
  pose proof (extractor_lengths _ _ _ _ _ _ _ _ _ _ _ _ _ Hext) as Hlen.
  set (l := fresh (dom (heap st))). split_and!.
  - intros filename Hopen.
    assert (filename <> "") as Hname by (by intros ->).
    destruct (WriterFacts.dump_to_csv_aligned l names affiliations filename
                (PyState (<[l := names]> (heap st)) (files st) (unwritable st)))
      as (st' & E & _ & Hf);
      [done|by cbn [heap]; rewrite lookup_insert_eq|done|].
    destruct (WriterMore.dump_to_csv_frame _ _ _ _ _ _ E) as [_ Hframe].
    exists l, st'. split_and!; [|done|done].
    unfold Scholar.get_coauthors, bindW, call. rewrite Hprof, Hext.
    cbn [fst snd]. fold l. rewrite E.
    by destruct (String.eqb_spec filename "").
  - intros filename e Hname Hopen.
    unfold Scholar.get_coauthors, bindW, call. rewrite Hprof, Hext.
    cbn [fst snd]. fold l. unfold _dump_to_csv.
    replace (open_for_writing _ filename) with (Some e).
    by destruct (String.eqb_spec filename "").
  - intros filename Hname.
    exists l, (PyState (<[l := names]> (heap st)) (files st) (unwritable st)). split; [|done].
    unfold Scholar.get_coauthors, bindW, call. rewrite Hprof, Hext.
    by destruct Hname as [-> | ->].
Qed.

End GetCoauthorsMore.

Lemma get_coauthors_writes_the_records_witness :
  exists l st',
    Demo.coauthors "1KXRphAAAAAJ" (Some 4%Z) (Some "coauthors.csv") Demo.empty_state 0
    = (Ok (l, st'), 8)
    /\ files st' !! "coauthors.csv"
       = Some (csv_text ["Doe, Jane"; "Johnson, Ann M"; "Roe, Richard"]
                 [""; "Example University"; "An error occurred: timed out"]).
Proof.
  destruct (get_coauthors_writes_the_records Demo.World Demo.search_author
              Demo.fill Demo._get_scholar_profile Demo.today_year Demo.int_of_str
              Demo.set_order "1KXRphAAAAAJ" (Some 4%Z) Demo.empty_state 0
              (Profile (Some "Smith, John A") (Some Demo.papers)) 1
              ["Doe, Jane"; "Johnson, Ann M"; "Roe, Richard"]
              [""; "Example University"; "An error occurred: timed out"] 8)
    as [Hfile _]; [reflexivity|vm_compute; reflexivity|].
  destruct (Hfile "coauthors.csv") as (l & st' & E & Hf & _);
    [vm_compute; reflexivity|].
  by exists l, st'.
Defined.

(** X1: a raw name of exactly two tokens, "First Last", becomes
    "Last, First", whatever the tokens hold besides spaces. *)
Theorem nsf_name_first_last (first_name last_name : string) :
  token first_name -> token last_name ->
  nsf_name (first_name +:+ " " +:+ last_name) = Ok (last_name +:+ ", " +:+ first_name).
Proof. apply NameFacts.nsf_name_two_tokens. Qed.

Lemma nsf_name_first_last_witness : nsf_name "John Smith" = Ok "Smith, John".
Proof. apply (nsf_name_first_last "John" "Smith"); reflexivity. Defined.

(** X2: a raw name of three tokens or more, where no token before the
    last is followed by a comma and a space: if the first token has fewer
    than 2 characters the canonical name is the last token, [", "], the
    second token, a space and the first token, and the tokens between the
    second and the last are dropped; otherwise it is the last token,
    [", "] and the tokens before it in their order. *)
Theorem nsf_name_three_or_more_tokens (t0 t1 last_name : string) (mid : list string) :
  Forall token (t0 :: t1 :: mid ++ [last_name]) ->
  Str.contains ", " (Str.join " " (t0 :: t1 :: mid)) = false ->
  nsf_name (Str.join " " (t0 :: t1 :: mid ++ [last_name])) =
  Ok (if (Str.len t0 <? 2)%nat
      then last_name +:+ ", " +:+ t1 +:+ " " +:+ t0
      else last_name +:+ ", " +:+ Str.join " " (t0 :: t1 :: mid)).
Proof. apply NameFacts.nsf_name_more_tokens. Qed.

Lemma nsf_name_three_or_more_tokens_witness :
  nsf_name "M Ann Lee Johnson" = Ok "Johnson, Ann M"
  /\ nsf_name "Mary Ann Lee Johnson" = Ok "Johnson, Mary Ann Lee"
  /\ String.length "Ł" = 2 /\ Str.len "Ł" = 1
  /\ nsf_name "Ł Ann Smith" = Ok "Smith, Ann Ł".
Proof.
  split_and!; [| |reflexivity|reflexivity|].
  - apply (nsf_name_three_or_more_tokens "M" "Ann" "Johnson" ["Lee"]);
      [repeat constructor|reflexivity].
  - apply (nsf_name_three_or_more_tokens "Mary" "Ann" "Johnson" ["Lee"]);
      [repeat constructor|reflexivity].
  - apply (nsf_name_three_or_more_tokens "Ł" "Ann" "Smith" []);
      [repeat constructor|reflexivity].
Defined.
